(** * Tic-Tac-Toe Classic: the game engine of the React front ends

    The repository holds three variants of one React component.
    [App.js] keeps the board as a flat array of nine squares and plays
    the automated opponent with a win / block / centre / random
    heuristic; the two other variants (identical up to styling) keep
    the board as an array of three rows and play a purely random
    opponent.  Module [Flat] embeds the first, module [Grid] the
    others.

    A component is embedded as the state its [useState] cells hold,
    handlers and effects that issue setter calls, and a render loop in
    the manner of React: the setter calls of one handler, effect pass
    or timer callback are applied together; after a render that changed
    the state the effects whose dependencies changed run, in the order
    of their declaration, with the values of that render; a timer
    callback runs later, as an event of its own. *)

From Stdlib Require Import List Arith Bool Lia.
From stdpp Require Import base list.
Import ListNotations.

(** ** Marks, cells and outcomes *)

(** The two player symbols, the strings "X" and "O" of the source. *)
Inductive Mark : Set := X | O.

#[global] Instance Mark_eq_dec : EqDecision Mark.
Proof. solve_decision. Defined.

(** A square holds [null] or a mark.  [None] is [null]; a read outside
    an array gives [undefined], which every test of the source that can
    meet it treats like [null], so it is read as [None] as well. *)
Definition cell : Set := option Mark.

(** JavaScript truthiness of a cell. *)
Definition truthy (c : cell) : bool :=
  match c with Some _ => true | None => false end.

(** [a === b] on cells. *)
Definition strictEq (a b : cell) : bool := bool_decide (a = b).

(** The other player's mark. *)
Definition other (m : Mark) : Mark :=
  match m with X => O | O => X end.

(** The classification of a board the specification speaks about. *)
Inductive Outcome : Set :=
| InProgress
| Win (m : Mark)
| Draw.

#[global] Instance Outcome_eq_dec : EqDecision Outcome.
Proof. solve_decision. Defined.

(** [arr[i]] on an array of cells. *)
Definition jsGet (arr : list cell) (i : nat) : cell :=
  default None (arr !! i).

(** [arr[i] = v]: inside the array the slot is overwritten, beyond its
    end JavaScript grows the array and leaves holes in between. *)
Definition jsSet (arr : list cell) (i : nat) (v : cell) : list cell :=
  if decide (i < length arr) then <[i := v]> arr
  else arr ++ replicate (i - length arr) None ++ [v].

(** ** App.js: the flat board *)

Module Flat.

(** The eight index triples of [calculateWinner]. *)
Definition lines : list (nat * nat * nat) :=
  [ (0, 1, 2); (3, 4, 5); (6, 7, 8);
    (0, 3, 6); (1, 4, 7); (2, 5, 8);
    (0, 4, 8); (2, 4, 6) ].

(** The test of one triple inside the loop of [calculateWinner]. *)
Definition lineHit (squares : list cell) (l : nat * nat * nat) : bool :=
  let '(a, b, c) := l in
  truthy (jsGet squares a)
  && strictEq (jsGet squares a) (jsGet squares b)
  && strictEq (jsGet squares a) (jsGet squares c).

(** The loop [for (const [a, b, c] of lines)]: the first triple that
    passes the test decides. *)
Fixpoint scanLines (squares : list cell) (ls : list (nat * nat * nat)) : cell :=
  match ls with
  | [] => None
  | l :: ls' =>
      if lineHit squares l then jsGet squares (fst (fst l))
      else scanLines squares ls'
  end.

Definition calculateWinner (squares : list cell) : cell :=
  scanLines squares lines.

(** The classification made by the "check if game ends" effect:
    a winner, else a draw when every square is taken, else ongoing. *)
Definition evaluate (board : list cell) : Outcome :=
  match calculateWinner board with
  | Some m => Win m
  | None => if forallb truthy board then Draw else InProgress
  end.

(** [getAIMove]: the squares whose value is falsy, in index order
    ([map] to index-or-null, then [filter]). *)
Definition emptyIndices (squares : list cell) : list nat :=
  omap id (imap (fun i val => if truthy val then None else Some i) squares).

(** The body of both [for (const idx of emptyIndices)] loops: copy the
    board, put [m] on square [idx], ask [calculateWinner]. *)
Definition winsWith (squares : list cell) (m : Mark) (idx : nat) : bool :=
  let copy := jsSet squares idx (Some m) in
  strictEq (calculateWinner copy) (Some m).

(** [getAIMove].  [rnd] stands for the value of
    [Math.floor(Math.random() * emptyIndices.length)], which lies below
    the length whenever the length is positive. *)
Definition getAIMove (squares : list cell) (rnd : nat) : option nat :=
  let ai := O in
  let opponent := X in
  match find (winsWith squares ai) (emptyIndices squares) with
  | Some idx => Some idx
  | None =>
      match find (winsWith squares opponent) (emptyIndices squares) with
      | Some idx => Some idx
      | None =>
          if bool_decide (4 ∈ emptyIndices squares) then Some 4
          else match emptyIndices squares with
               | [] => None
               | _ :: _ => emptyIndices squares !! rnd
               end
      end
  end.

(** *** The component state *)

Inductive Mode : Set := ModeTwo | ModeAI.
Inductive Status : Set := StOngoing | StWin | StDraw.

#[global] Instance Mode_eq_dec : EqDecision Mode.
Proof. solve_decision. Defined.
#[global] Instance Status_eq_dec : EqDecision Status.
Proof. solve_decision. Defined.

(** The five [useState] cells of the game (the theme is cosmetic). *)
Record session : Set := mkSession {
  mode : Mode;
  board : list cell;
  isXNext : bool;
  status : Status;
  winner : cell
}.

#[global] Instance session_eq_dec : EqDecision session.
Proof. solve_decision. Defined.

(** What a handler, an effect or a timer callback can do: call a state
    setter, or arm a timer whose callback closes over [nextBoard]. *)
Inductive action : Set :=
| SetBoard (b : list cell)
| SetIsXNext (v : bool)
| ToggleIsXNext
| SetStatus (v : Status)
| SetWinner (v : cell)
| SetMode (v : Mode)
| SetTimeout (nextBoard : list cell).

(** [handleSquareClick]: the empty list is the early [return]. *)
Definition handleSquareClick (s : session) (idx : nat) : list action :=
  if truthy (jsGet (board s) idx) || negb (bool_decide (status s = StOngoing))
  then []
  else if bool_decide (mode s = ModeAI) && negb (isXNext s)
  then []
  else
    let nextBoard := jsSet (board s) idx (Some (if isXNext s then X else O)) in
    [SetBoard nextBoard; ToggleIsXNext].

Definition handleReset : list action :=
  [SetBoard (replicate 9 None); SetIsXNext true; SetStatus StOngoing;
   SetWinner None].

Definition handleModeChange (value : Mode) : list action :=
  SetMode value :: handleReset.

(** The effect on [[board]] that records the end of the game. *)
Definition gameEndEffect (s : session) : list action :=
  match calculateWinner (board s) with
  | Some m => [SetStatus StWin; SetWinner (Some m)]
  | None =>
      if forallb truthy (board s) then [SetStatus StDraw; SetWinner None]
      else [SetStatus StOngoing; SetWinner None]
  end.

(** The effect on [[board, isXNext, mode, status]] that plays "O".  The
    move is chosen when the effect runs; only its application is
    deferred.  The effect returns no clean-up function. *)
Definition aiMoveEffect (s : session) (rnd : nat) : list action :=
  if bool_decide (mode s = ModeAI) && negb (isXNext s)
     && bool_decide (status s = StOngoing)
  then match getAIMove (board s) rnd with
       | Some move => [SetTimeout (jsSet (board s) move (Some O))]
       | None => []
       end
  else [].

(** The callback handed to [setTimeout]. *)
Definition timerCallback (nextBoard : list cell) : list action :=
  [SetBoard nextBoard; SetIsXNext true].

(** *** Rendering

    A world is the rendered state, the identity of the array held in
    [board] (every [setBoard] of the source passes a freshly allocated
    array, so each one changes the identity), and the callbacks of the
    timers not yet fired, oldest first. *)
Record world : Set := mkWorld {
  cur : session;
  boardRef : nat;
  timers : list (list cell)
}.

Definition perform (w : world) (a : action) : world :=
  let s := cur w in
  match a with
  | SetBoard b =>
      mkWorld (mkSession (mode s) b (isXNext s) (status s) (winner s))
              (S (boardRef w)) (timers w)
  | SetIsXNext v =>
      mkWorld (mkSession (mode s) (board s) v (status s) (winner s))
              (boardRef w) (timers w)
  | ToggleIsXNext =>
      mkWorld (mkSession (mode s) (board s) (negb (isXNext s)) (status s) (winner s))
              (boardRef w) (timers w)
  | SetStatus v =>
      mkWorld (mkSession (mode s) (board s) (isXNext s) v (winner s))
              (boardRef w) (timers w)
  | SetWinner v =>
      mkWorld (mkSession (mode s) (board s) (isXNext s) (status s) v)
              (boardRef w) (timers w)
  | SetMode v =>
      mkWorld (mkSession v (board s) (isXNext s) (status s) (winner s))
              (boardRef w) (timers w)
  | SetTimeout nb => mkWorld s (boardRef w) (timers w ++ [nb])
  end.

Definition performAll (w : world) (acts : list action) : world :=
  foldl perform w acts.

(** Two renders show the same state: React then skips the render and
    runs no effect. *)
Definition sameRender (w1 w2 : world) : bool :=
  bool_decide (cur w1 = cur w2) && bool_decide (boardRef w1 = boardRef w2).

(** The effects of one commit, in the order the component declares
    them, each run only when one of its dependencies changed since the
    previous render. *)
Definition runEffects (rnd : nat) (prev now : world) : list action :=
  (if bool_decide (boardRef prev = boardRef now) then []
   else gameEndEffect (cur now))
  ++
  (if bool_decide (boardRef prev = boardRef now)
      && bool_decide (isXNext (cur prev) = isXNext (cur now))
      && bool_decide (mode (cur prev) = mode (cur now))
      && bool_decide (status (cur prev) = status (cur now))
   then []
   else aiMoveEffect (cur now) rnd).

(** Render, run the effects, and render again while they change the
    state. *)
Fixpoint flush (fuel : nat) (rnd : nat) (prev now : world) : world :=
  match fuel with
  | 0 => now
  | S fuel' =>
      if sameRender prev now then now
      else flush fuel' rnd now (performAll now (runEffects rnd prev now))
  end.

(** A batch of setter calls followed by the renders it causes. *)
Definition deliver (rnd : nat) (acts : list action) (w : world) : world :=
  flush 3 rnd w (performAll w acts).

(** What can happen to the component: a click on square [idx], the
    "New Game" button, a change of the mode selector, the expiry of the
    oldest timer. *)
Inductive event : Set :=
| Click (idx : nat)
| NewGame
| SelectMode (value : Mode)
| TimerFires.

(** The handler or callback an event runs, with the world it runs in:
    an expired timer is no longer pending when its callback runs. *)
Definition dispatch (w : world) (e : event) : list action * world :=
  match e with
  | Click idx => (handleSquareClick (cur w) idx, w)
  | NewGame => (handleReset, w)
  | SelectMode value => (handleModeChange value, w)
  | TimerFires =>
      match timers w with
      | [] => ([], w)
      | nb :: rest => (timerCallback nb, mkWorld (cur w) (boardRef w) rest)
      end
  end.

(** One event.  [rnd] is the draw [getAIMove] sees if the opponent
    effect reaches its random step in the commit that follows the
    handler; in the later commits of the same event the effect never
    gets that far. *)
Definition step (rnd : nat) (w : world) (e : event) : world :=
  deliver rnd (fst (dispatch w e)) (snd (dispatch w e)).

(** A component that shows a new game in mode [m]: mode "two" after
    the first render, mode "ai" once it has been selected. *)
Definition initial (m : Mode) : world :=
  mkWorld (mkSession m (replicate 9 None) true StOngoing None) 0 [].

(** A run of events, each with the random draw available to it. *)
Definition run (w : world) (es : list (event * nat)) : world :=
  foldl (fun w er => step (snd er) w (fst er)) w es.

(** A click is accepted when the handler gets past its guards. *)
Definition accepted (s : session) (idx : nat) : bool :=
  match handleSquareClick s idx with [] => false | _ :: _ => true end.

(** A placement that is due: a click the handler accepts, or the
    expiry of the opponent's timer while it is the opponent's turn. *)
Definition legalPlacement (w : world) (e : event) : bool :=
  match e with
  | Click idx => accepted (cur w) idx
  | TimerFires =>
      negb (isXNext (cur w))
      && match timers w with [] => false | _ :: _ => true end
  | NewGame | SelectMode _ => false
  end.

(** Consecutive placements, all of them due; [None] as soon as one is
    not. *)
Fixpoint placements (w : world) (es : list (event * nat)) : option world :=
  match es with
  | [] => Some w
  | (e, rnd) :: rest =>
      if legalPlacement w e then placements (step rnd w e) rest else None
  end.

(** All the timers that are pending expire. *)
Definition fireAll (w : world) : world :=
  Nat.iter (length (timers w)) (fun w' => step 0 w' TimerFires) w.

(** The draws [getAIMove] can see on a board. *)
Definition legalDraw (squares : list cell) (rnd : nat) : Prop :=
  emptyIndices squares = [] \/ rnd < length (emptyIndices squares).

(** The draws worth trying on a board: every one of them where
    [getAIMove] gets as far as its random step, a single one where it
    does not look at the draw. *)
Definition draws (squares : list cell) : list nat :=
  match find (winsWith squares O) (emptyIndices squares),
        find (winsWith squares X) (emptyIndices squares) with
  | None, None =>
      if bool_decide (4 ∈ emptyIndices squares) then [0]
      else match emptyIndices squares with
           | [] => [0]
           | _ :: _ => seq 0 (length (emptyIndices squares))
           end
  | _, _ => [0]
  end.

(** The human has won: what the status line shows at the end. *)
Definition humanWon (s : session) : bool :=
  bool_decide (status s = StWin) && bool_decide (winner s = Some X).

(** Whatever the human clicks, some resolution of the opponent's
    random draws keeps the human from ever winning: no click completes
    a line of "X", and the game ends without a win of the human. *)
#[warnings="-register-all"] Inductive Holds : world -> Prop :=
| Holds_over w :
    status (cur w) <> StOngoing -> humanWon (cur w) = false -> Holds w
| Holds_turn w :
    status (cur w) = StOngoing ->
    (forall idx, idx < 9 -> jsGet (board (cur w)) idx = None ->
       exists rnd,
         legalDraw (jsSet (board (cur w)) idx (Some X)) rnd
         /\ humanWon (cur (step rnd w (Click idx))) = false
         /\ Holds (fireAll (step rnd w (Click idx)))) ->
    Holds w.

(** The search that decides [Holds] on a world. *)
Fixpoint holdsb (fuel : nat) (w : world) : bool :=
  match fuel with
  | 0 => false
  | S fuel' =>
      if bool_decide (status (cur w) = StOngoing) then
        forallb (fun idx =>
          if truthy (jsGet (board (cur w)) idx) then true
          else existsb
                 (fun rnd =>
                    negb (humanWon (cur (step rnd w (Click idx))))
                    && holdsb fuel' (fireAll (step rnd w (Click idx))))
                 (draws (jsSet (board (cur w)) idx (Some X))))
          (seq 0 9)
      else negb (humanWon (cur w))
  end.

(** How an outcome is held in [status] and [winner]. *)
Definition cached (o : Outcome) : Status * cell :=
  match o with
  | InProgress => (StOngoing, None)
  | Win m => (StWin, Some m)
  | Draw => (StDraw, None)
  end.

End Flat.

(** ** The two other variants: the board as three rows *)

Module Grid.

Definition BOARD_SIZE : nat := 3.

(** [board[i][j]], keeping [undefined] ([None]) apart from [null]
    ([Some None]) for the tests of the source that use [=== EMPTY]. *)
Definition rawAt (board : list (list cell)) (i j : nat) : option cell :=
  board !! i ≫= fun row => row !! j.

(** [board[i][j]] where only its truthiness or its mark matters. *)
Definition cellAt (board : list (list cell)) (i j : nat) : cell :=
  default None (rawAt board i j).

(** The assignment [next[i][j] = v] on the copy made by
    [prev.map(row => [...row])].  For a row that does not exist the
    source raises a TypeError; the copy is then returned as it is. *)
Definition gridSet (board : list (list cell)) (i j : nat) (v : cell)
  : list (list cell) :=
  match board !! i with
  | Some row => <[i := jsSet row j v]> board
  | None => board
  end.

(** The two nested loops of [aiMove]. *)
Definition emptySquares (board : list (list cell)) : list (nat * nat) :=
  flat_map (fun i =>
    flat_map (fun j =>
      if bool_decide (rawAt board i j = Some None) then [(i, j)] else [])
      (seq 0 BOARD_SIZE))
    (seq 0 BOARD_SIZE).

(** [aiMove]; [rnd] is [Math.floor(Math.random() * emptySquares.length)]. *)
Definition aiMove (board : list (list cell)) (rnd : nat) : option (nat * nat) :=
  match emptySquares board with
  | [] => None
  | _ :: _ => emptySquares board !! rnd
  end.

(** The draws [aiMove] can see on a board. *)
Definition legalDraw (board : list (list cell)) (rnd : nat) : Prop :=
  emptySquares board = [] \/ rnd < length (emptySquares board).

(** What [calculateWinner] returns and the [winner] state holds:
    [null], "X" or "O", or "draw". *)
Inductive winnerVal : Set :=
| WNull
| WMark (m : Mark)
| WDraw.

#[global] Instance winnerVal_eq_dec : EqDecision winnerVal.
Proof. solve_decision. Defined.

Definition truthyW (w : winnerVal) : bool :=
  match w with WNull => false | _ => true end.

(** The lines collected into [checkLines]: row [i] and column [i] for
    each [i], then the two diagonals. *)
Definition checkLines (board : list (list cell)) : list (list cell) :=
  flat_map (fun i =>
    [ default [] (board !! i); map (fun row => jsGet row i) board ])
    (seq 0 BOARD_SIZE)
  ++ [ imap (fun i row => jsGet row i) board;
       imap (fun i row => jsGet row (BOARD_SIZE - 1 - i)) board ].

(** [line.every(cell => cell && cell === line[0])]. *)
Definition lineWins (line : list cell) : bool :=
  forallb (fun c => truthy c && strictEq c (jsGet line 0)) line.

Definition calculateWinner (board : list (list cell)) : winnerVal :=
  match find lineWins (checkLines board) with
  | Some line =>
      match jsGet line 0 with Some m => WMark m | None => WNull end
  | None =>
      if forallb (fun c => negb (strictEq c None)) (concat board)
      then WDraw else WNull
  end.

(** The classification in the words of the specification. *)
Definition evaluate (board : list (list cell)) : Outcome :=
  match calculateWinner board with
  | WNull => InProgress
  | WMark m => Win m
  | WDraw => Draw
  end.

(** *** The component state *)

Inductive Mode : Set := MODE_LOCAL | MODE_AI.

#[global] Instance Mode_eq_dec : EqDecision Mode.
Proof. solve_decision. Defined.

Record session : Set := mkSession {
  mode : Mode;
  board : list (list cell);
  xIsNext : bool;
  winner : winnerVal;
  aiThinking : bool
}.

#[global] Instance session_eq_dec : EqDecision session.
Proof. solve_decision. Defined.

(** Setter calls and timer operations.  [PlaceMark] is the functional
    update [setBoard(prev => ...)] that copies [prev] and writes one
    square; the callback of [SetTimeout] closes over the [board] and
    the [winner] of the render that armed it. *)
Inductive action : Set :=
| SetBoard (b : list (list cell))
| PlaceMark (i j : nat) (m : Mark)
| SetXIsNext (v : bool)
| ToggleXIsNext
| SetWinner (v : winnerVal)
| SetAiThinking (v : bool)
| SetMode (v : Mode)
| SetTimeout (capBoard : list (list cell)) (capWinner : winnerVal)
| ClearTimeout.

(** [handleSquareClick]: the empty list is the early [return]. *)
Definition handleSquareClick (s : session) (i j : nat) : list action :=
  if truthyW (winner s) || truthy (cellAt (board s) i j) then []
  else [PlaceMark i j (if xIsNext s then X else O); ToggleXIsNext].

(** The [disabled] property that [App] hands to [Board]. *)
Definition disabled (s : session) : bool :=
  truthyW (winner s) || aiThinking s
  || (bool_decide (mode s = MODE_AI) && negb (xIsNext s)).

(** The [onClick] of a square's button: the only caller of
    [handleSquareClick]. *)
Definition squareOnClick (s : session) (i j : nat) : list action :=
  if negb (disabled s) && negb (truthy (cellAt (board s) i j))
  then handleSquareClick s i j
  else [].

Definition emptyBoard : list (list cell) :=
  replicate BOARD_SIZE (replicate BOARD_SIZE None).

Definition resetGame : list action :=
  [SetBoard emptyBoard; SetXIsNext true; SetWinner WNull; SetAiThinking false].

(** The effect on [[board]]. *)
Definition winnerEffect (s : session) : list action :=
  let res := calculateWinner (board s) in
  SetWinner res :: (if truthyW res then [SetAiThinking false] else []).

(** The effect on [[mode, winner, xIsNext, board]]; its clean-up
    function is [clearTimeout(aiDelay)]. *)
Definition aiEffect (s : session) : list action :=
  if bool_decide (mode s = MODE_AI) && negb (truthyW (winner s))
     && negb (xIsNext s)
  then [SetAiThinking true; SetTimeout (board s) (winner s)]
  else [].

(** The callback handed to [setTimeout]: here the move is chosen when
    the timer fires. *)
Definition timerCallback (capBoard : list (list cell)) (capWinner : winnerVal)
    (rnd : nat) : list action :=
  match aiMove capBoard rnd with
  | Some (i, j) =>
      if negb (truthyW capWinner) then [PlaceMark i j O; SetXIsNext true]
      else []
  | None => []
  end ++ [SetAiThinking false].

(** The rendered state, the identity of the array in [board], and the
    timer that is armed and has not fired (the clean-up of the effect
    clears the previous timer before another is armed, so there is at
    most one). *)
Record world : Set := mkWorld {
  cur : session;
  boardRef : nat;
  pending : option (list (list cell) * winnerVal)
}.

Definition perform (w : world) (a : action) : world :=
  let s := cur w in
  match a with
  | SetBoard b =>
      mkWorld (mkSession (mode s) b (xIsNext s) (winner s) (aiThinking s))
              (S (boardRef w)) (pending w)
  | PlaceMark i j m =>
      mkWorld (mkSession (mode s) (gridSet (board s) i j (Some m)) (xIsNext s)
                         (winner s) (aiThinking s))
              (S (boardRef w)) (pending w)
  | SetXIsNext v =>
      mkWorld (mkSession (mode s) (board s) v (winner s) (aiThinking s))
              (boardRef w) (pending w)
  | ToggleXIsNext =>
      mkWorld (mkSession (mode s) (board s) (negb (xIsNext s)) (winner s)
                         (aiThinking s))
              (boardRef w) (pending w)
  | SetWinner v =>
      mkWorld (mkSession (mode s) (board s) (xIsNext s) v (aiThinking s))
              (boardRef w) (pending w)
  | SetAiThinking v =>
      mkWorld (mkSession (mode s) (board s) (xIsNext s) (winner s) v)
              (boardRef w) (pending w)
  | SetMode v =>
      mkWorld (mkSession v (board s) (xIsNext s) (winner s) (aiThinking s))
              (boardRef w) (pending w)
  | SetTimeout b wn => mkWorld s (boardRef w) (Some (b, wn))
  | ClearTimeout => mkWorld s (boardRef w) None
  end.

Definition performAll (w : world) (acts : list action) : world :=
  foldl perform w acts.

Definition sameRender (w1 w2 : world) : bool :=
  bool_decide (cur w1 = cur w2) && bool_decide (boardRef w1 = boardRef w2).

(** One commit: the clean-up of the opponent effect when it is about to
    run again, then the bodies of the effects whose dependencies
    changed, in the order of their declaration (winner, opponent, reset
    on mode change). *)
Definition runEffects (prev now : world) : list action :=
  let aiDeps :=
    bool_decide (mode (cur prev) = mode (cur now))
    && bool_decide (winner (cur prev) = winner (cur now))
    && bool_decide (xIsNext (cur prev) = xIsNext (cur now))
    && bool_decide (boardRef prev = boardRef now) in
  (if aiDeps then [] else [ClearTimeout])
  ++ (if bool_decide (boardRef prev = boardRef now) then []
      else winnerEffect (cur now))
  ++ (if aiDeps then [] else aiEffect (cur now))
  ++ (if bool_decide (mode (cur prev) = mode (cur now)) then []
      else resetGame).

Fixpoint flush (fuel : nat) (prev now : world) : world :=
  match fuel with
  | 0 => now
  | S fuel' =>
      if sameRender prev now then now
      else flush fuel' now (performAll now (runEffects prev now))
  end.

Definition deliver (acts : list action) (w : world) : world :=
  flush 4 w (performAll w acts).

(** A click on the button of square [(i, j)], a call of [resetGame], a
    call of [setMode], the expiry of the armed timer. *)
Inductive event : Set :=
| CellClick (i j : nat)
| NewGame
| ChooseMode (value : Mode)
| TimerFires.

Definition step (rnd : nat) (w : world) (e : event) : world :=
  match e with
  | CellClick i j => deliver (squareOnClick (cur w) i j) w
  | NewGame => deliver resetGame w
  | ChooseMode value => deliver [SetMode value] w
  | TimerFires =>
      match pending w with
      | None => w
      | Some (b, wn) =>
          deliver (timerCallback b wn rnd) (mkWorld (cur w) (boardRef w) None)
      end
  end.

(** The session [resetGame] leaves behind, in mode [m]. *)
Definition fresh (m : Mode) : session :=
  mkSession m emptyBoard true WNull false.

Definition initial (m : Mode) : world := mkWorld (fresh m) 0 None.

(** A run of events, each with the random draw available to it. *)
Definition run (w : world) (es : list (event * nat)) : world :=
  foldl (fun w er => step (snd er) w (fst er)) w es.

Definition accepted (s : session) (i j : nat) : bool :=
  match squareOnClick s i j with [] => false | _ :: _ => true end.

(** A placement that is due: a click that gets through, or the expiry
    of the opponent's timer on the opponent's turn when its callback
    finds a square. *)
Definition legalPlacement (w : world) (e : event) (rnd : nat) : bool :=
  match e with
  | CellClick i j => accepted (cur w) i j
  | TimerFires =>
      negb (xIsNext (cur w))
      && match pending w with
         | Some (b, wn) =>
             negb (truthyW wn)
             && match aiMove b rnd with Some _ => true | None => false end
         | None => false
         end
  | NewGame | ChooseMode _ => false
  end.

Fixpoint placements (w : world) (es : list (event * nat)) : option world :=
  match es with
  | [] => Some w
  | (e, rnd) :: rest =>
      if legalPlacement w e rnd then placements (step rnd w e) rest else None
  end.

End Grid.

(** ** Arrays as heap objects

    The modules above treat a board as a value.  The source builds
    boards by copying an array and assigning into the copy; to see that
    no assignment reaches an array that existed before, the same code is
    embedded here over a store in which arrays live at addresses and an
    assignment overwrites the addressed array in place. *)

Module Heap.

(** An array of squares, or an array of references to rows. *)
Inductive obj : Set :=
| Cells (l : list cell)
| Rows (l : list nat).

(** The store: the object at address [a] is the [a]-th entry. *)
Abbreviation heap := (list obj).

Definition M (A : Type) : Type := heap -> A * heap.

#[global] Instance M_ret : MRet M := fun A x h => (x, h).
#[global] Instance M_bind : MBind M :=
  fun A B f m h => let (x, h') := m h in f x h'.

(** A new array. *)
Definition alloc (o : obj) : M nat :=
  fun h => (length h, h ++ [o]).

Definition readCells (a : nat) : M (list cell) :=
  fun h => (match h !! a with Some (Cells l) => l | _ => [] end, h).

Definition readRows (a : nat) : M (list nat) :=
  fun h => (match h !! a with Some (Rows l) => l | _ => [] end, h).

(** [arr[i] = v] on the array at address [a]: in place. *)
Definition writeCell (a i : nat) (v : cell) : M unit :=
  fun h =>
    (tt, alter (fun o => match o with
                         | Cells l => Cells (jsSet l i v)
                         | Rows l => Rows l
                         end) a h).

(** [arr.slice()] and [[...arr]]. *)
Definition slice (a : nat) : M nat :=
  l ← readCells a; alloc (Cells l).

(** [const nextBoard = [...board]; nextBoard[idx] = m;] of
    [handleSquareClick] and of the opponent effect of App.js. *)
Definition placeOnCopy (board idx : nat) (m : Mark) : M nat :=
  nextBoard ← slice board;
  _ ← writeCell nextBoard idx (Some m);
  mret nextBoard.

(** One loop of [getAIMove] of App.js. *)
Fixpoint tryEach (squares : nat) (m : Mark) (idxs : list nat) : M (option nat) :=
  match idxs with
  | [] => mret None
  | idx :: rest =>
      copy ← slice squares;
      _ ← writeCell copy idx (Some m);
      sq ← readCells copy;
      if strictEq (Flat.calculateWinner sq) (Some m) then mret (Some idx)
      else tryEach squares m rest
  end.

(** [getAIMove] of App.js on the array at address [squares]. *)
Definition getAIMove (squares rnd : nat) : M (option nat) :=
  sq ← readCells squares;
  let emptyIndices := Flat.emptyIndices sq in
  won ← tryEach squares O emptyIndices;
  match won with
  | Some idx => mret (Some idx)
  | None =>
      blocked ← tryEach squares X emptyIndices;
      match blocked with
      | Some idx => mret (Some idx)
      | None =>
          mret (if bool_decide (4 ∈ emptyIndices) then Some 4
                else match emptyIndices with
                     | [] => None
                     | _ :: _ => emptyIndices !! rnd
                     end)
      end
  end.

(** [prev.map(row => [...row])] of the grid variants. *)
Fixpoint copyRows (rows : list nat) : M (list nat) :=
  match rows with
  | [] => mret []
  | r :: rest =>
      r' ← slice r;
      rest' ← copyRows rest;
      mret (r' :: rest')
  end.

(** The functional update of [setBoard] in the grid variants:
    copy every row, then [next[i][j] = m]. *)
Definition placeMark (prev i j : nat) (m : Mark) : M nat :=
  rows ← readRows prev;
  rows' ← copyRows rows;
  next ← alloc (Rows rows');
  _ ← match rows' !! i with
      | Some r => writeCell r j (Some m)
      | None => mret tt
      end;
  mret next.

(** The board value held at an address: of a flat board, of a grid. *)
Definition flatAt (h : heap) (a : nat) : list cell :=
  fst (readCells a h).

Definition gridAt (h : heap) (a : nat) : list (list cell) :=
  flatAt h <$> fst (readRows a h).

(** Every array of [h] is still what it was in [h']. *)
Definition untouched (h h' : heap) : Prop :=
  forall a, a < length h -> h' !! a = h !! a.

End Heap.

(** ** The vocabulary of the specification *)

(** The three squares of a line all hold the mark [m]. *)
Definition fullLine (squares : list cell) (m : Mark) (l : nat * nat * nat) : Prop :=
  let '(a, b, c) := l in
  squares !! a = Some (Some m) /\ squares !! b = Some (Some m)
  /\ squares !! c = Some (Some m).

(** Some line is full of [m], and no line before it in the order rows,
    columns, diagonals is full of either mark. *)
Definition firstFull (squares : list cell) (m : Mark) : Prop :=
  exists i l,
    Flat.lines !! i = Some l /\ fullLine squares m l
    /\ forall j l' m', j < i -> Flat.lines !! j = Some l' ->
         ~ fullLine squares m' l'.

Definition someFull (squares : list cell) (m : Mark) : Prop :=
  exists l, l ∈ Flat.lines /\ fullLine squares m l.

Definition noFullLine (squares : list cell) : Prop :=
  forall m, ~ someFull squares m.

Definition hasEmpty (squares : list cell) : Prop :=
  exists i, squares !! i = Some None.

(** The outcome [o] classifies the board as the evaluator is meant to. *)
Definition Classifies (o : Outcome) (squares : list cell) : Prop :=
  (forall m, o = Win m <-> firstFull squares m)
  /\ (forall m, ~ someFull squares (other m) ->
        (o = Win m <-> someFull squares m))
  /\ (o = Draw <-> ~ hasEmpty squares /\ noFullLine squares)
  /\ (o = InProgress <-> hasEmpty squares /\ noFullLine squares).

(** [i] is the first index with the property [P]. *)
Definition firstSuch (P : nat -> Prop) (i : nat) : Prop :=
  P i /\ forall j, j < i -> ~ P j.

(** Square [i] is empty and taking it gives [m] the game. *)
Definition winningSquare (squares : list cell) (m : Mark) (i : nat) : Prop :=
  squares !! i = Some None
  /\ Flat.evaluate (jsSet squares i (Some m)) = Win m.

(** The row-major correspondence between the two board layouts. *)
Definition toGrid (squares : list cell) : list (list cell) :=
  [ take 3 squares; take 3 (drop 3 squares); take 3 (drop 6 squares) ].

Definition wellFormed (g : list (list cell)) : Prop :=
  length g = 3 /\ Forall (fun row => length row = 3) g.

(** The empty squares numbered from [k] on: [Flat.emptyIndices] is
    [emptyFrom 0]. *)
Definition emptyFrom (k : nat) (squares : list cell) : list nat :=
  omap id (imap (fun i val => if truthy val then None else Some (k + i)) squares).

(** A check run through every board of [n] squares. *)
Definition allCells : list cell := [None; Some X; Some O].

Fixpoint forallBoards (n : nat) (P : list cell -> bool) : bool :=
  match n with
  | 0 => P []
  | S k => forallb (fun c => forallBoards k (fun sq => P (c :: sq))) allCells
  end.

(** ** Sample positions *)

(** Two full lines of different marks: not reachable in play, but a
    board all the same. *)
Definition twoLines : list cell :=
  [ Some X; Some X; Some X;
    Some O; Some O; Some O;
    None;   None;   None ].

(** After a corner for "X" and the centre for "O": nobody can win at
    once. *)
Definition afterCentre : list cell :=
  [ Some X; None;   None;
    None;   Some O; None;
    None;   None;   None ].

(** "O" can complete the top row of this grid at once. *)
Definition winInOne : list (list cell) :=
  [ [Some O; Some O; None];
    [Some X; Some X; None];
    [None;   None;   None] ].

(** Two players on one screen: "X" takes 0 and 1, "O" takes 3 and 4. *)
Definition beforeTheWin : list (Flat.event * nat) :=
  [ (Flat.Click 0, 0); (Flat.Click 3, 0); (Flat.Click 1, 0); (Flat.Click 4, 0) ].

(** A game against the opponent of App.js.  The human opens on 1 and 3;
    the opponent takes the centre, then has neither a win nor a block
    and draws square 5 (the third of the six empty squares).  The human
    takes 0, which threatens both 2 and 6; the opponent blocks 2, the
    human completes the left column on 6.  The opponent had been armed
    before the status was recomputed, and still answers on 7. *)
Definition forkGame : list (Flat.event * nat) :=
  [ (Flat.Click 1, 0); (Flat.TimerFires, 0);
    (Flat.Click 3, 2); (Flat.TimerFires, 0);
    (Flat.Click 0, 0); (Flat.TimerFires, 0);
    (Flat.Click 6, 0); (Flat.TimerFires, 0) ].

(** Another game against the opponent of App.js.  The human completes
    the bottom row on 7; the opponent, armed before the status was
    recomputed, then completes the middle row on 5. *)
Definition overturnedGame : list (Flat.event * nat) :=
  [ (Flat.Click 0, 0); (Flat.TimerFires, 0);
    (Flat.Click 8, 1); (Flat.TimerFires, 0);
    (Flat.Click 6, 0); (Flat.TimerFires, 0);
    (Flat.Click 7, 0) ].

(** The grid [winInOne] as it lies in a store: three rows, and the
    array of their addresses at address 3. *)
Definition winInOneStore : list Heap.obj :=
  [ Heap.Cells [Some O; Some O; None];
    Heap.Cells [Some X; Some X; None];
    Heap.Cells [None; None; None];
    Heap.Rows [0; 1; 2] ].

(** A full board without a full line. *)
Definition fullBoard : list cell :=
  [ Some X; Some O; Some X;
    Some X; Some O; Some O;
    Some O; Some X; Some X ].

(** ** The views *)

(** What App.js renders from the session. *)
Module FlatView.

(** The three shapes of [getStatusText]: "<winner> wins!", "Draw
    game.", "Turn: X" or "Turn: O". *)
Inductive statusText : Set :=
| WinsText (who : cell)
| DrawText
| TurnText (m : Mark).

Definition getStatusText (s : Flat.session) : statusText :=
  match Flat.status s with
  | Flat.StWin => WinsText (Flat.winner s)
  | Flat.StDraw => DrawText
  | Flat.StOngoing => TurnText (if Flat.isXNext s then X else O)
  end.

(** The [disabled] attribute of the button of square [i]:
    [!isActive || !!value], where [Board] is given
    [isActive = (status === "ongoing")]. *)
Definition squareDisabled (s : Flat.session) (i : nat) : bool :=
  negb (bool_decide (Flat.status s = Flat.StOngoing))
  || truthy (jsGet (Flat.board s) i).

(** The clicks the view can deliver: [Board] renders one button per
    element of [squares], and a disabled button delivers none. *)
Definition canClick (s : Flat.session) (i : nat) : bool :=
  bool_decide (i < length (Flat.board s)) && negb (squareDisabled s i).

End FlatView.

(** What the grid variants render from the session. *)
Module GridView.

(** The [disabled] attribute of the button of square [(i, j)]:
    [disabled || !!cell]. *)
Definition buttonDisabled (s : Grid.session) (i j : nat) : bool :=
  Grid.disabled s || truthy (Grid.cellAt (Grid.board s) i j).

(** The [disabled] attribute of "New Game" and of both mode buttons in
    [GameControls]. *)
Definition controlsDisabled (s : Grid.session) : bool := Grid.aiThinking s.

(** The status line of [GameControls]. *)
Inductive statusLine : Set :=
| DrawLine
| WinsLine (m : Mark)
| ThinkingLine
| NextLine (m : Mark).

Definition status (s : Grid.session) : statusLine :=
  match Grid.winner s with
  | Grid.WDraw => DrawLine
  | Grid.WMark m => WinsLine m
  | Grid.WNull =>
      if Grid.aiThinking s then ThinkingLine
      else NextLine (if Grid.xIsNext s then X else O)
  end.

(** What the user can press. *)
Inductive press : Set :=
| PressSquare (i j : nat)
| PressNewGame
| PressMode (value : Grid.Mode).

(** A press on a button: nothing when the button is disabled,
    otherwise its [onClick]. *)
Definition onPress (rnd : nat) (w : Grid.world) (p : press) : Grid.world :=
  match p with
  | PressSquare i j =>
      if buttonDisabled (Grid.cur w) i j then w
      else Grid.step rnd w (Grid.CellClick i j)
  | PressNewGame =>
      if controlsDisabled (Grid.cur w) then w
      else Grid.step rnd w Grid.NewGame
  | PressMode value =>
      if controlsDisabled (Grid.cur w) then w
      else Grid.step rnd w (Grid.ChooseMode value)
  end.

End GridView.

(** ** Invariants of the sessions *)

(** [status] and [winner] of App.js say what the board says. *)
Definition flatSettled (s : Flat.session) : Prop :=
  (Flat.status s, Flat.winner s) = Flat.cached (Flat.evaluate (Flat.board s)).

(** [winner] of the grid variants says what the board says. *)
Definition gridSettled (s : Grid.session) : Prop :=
  Grid.winner s = Grid.calculateWinner (Grid.board s).

(** The board of App.js, and every board a timer holds, has nine
    squares. *)
Definition flatShaped (w : Flat.world) : Prop :=
  length (Flat.board (Flat.cur w)) = 9
  /\ Forall (fun nb => length nb = 9) (Flat.timers w).

(** A timer of the grid variants that is pending was armed for the
    board now shown, in the mode against the opponent, on the
    opponent's turn, in a game that goes on. *)
Definition gridTimed (w : Grid.world) : Prop :=
  match Grid.pending w with
  | Some (b, wn) =>
      b = Grid.board (Grid.cur w) /\ wn = Grid.WNull
      /\ Grid.winner (Grid.cur w) = Grid.WNull
      /\ Grid.xIsNext (Grid.cur w) = false
      /\ Grid.mode (Grid.cur w) = Grid.MODE_AI
  | None => True
  end.

(** An event of the play itself: a click or the expiry of a timer,
    neither "New Game" nor a choice of mode. *)
Definition plays (e : Flat.event) : Prop :=
  match e with
  | Flat.Click _ | Flat.TimerFires => True
  | Flat.NewGame | Flat.SelectMode _ => False
  end.

(** Against the opponent of App.js at most one timer is pending; it is
    the opponent's turn then, and the timer holds the board shown with
    "O" on a square that is empty there. *)
Definition flatTimed (w : Flat.world) : Prop :=
  Flat.mode (Flat.cur w) = Flat.ModeAI
  /\ match Flat.timers w with
     | [] => True
     | [nb] =>
         Flat.isXNext (Flat.cur w) = false
         /\ exists mv, Flat.board (Flat.cur w) !! mv = Some None
              /\ nb = <[mv := Some O]> (Flat.board (Flat.cur w))
     | _ :: _ :: _ => False
     end.

(** While the grid variants show the opponent as thinking, it is the
    opponent's turn in the mode against it, and as long as the game
    goes on its timer is pending. *)
Definition gridThinking (w : Grid.world) : Prop :=
  Grid.aiThinking (Grid.cur w) = true ->
  Grid.mode (Grid.cur w) = Grid.MODE_AI
  /\ Grid.xIsNext (Grid.cur w) = false
  /\ (Grid.winner (Grid.cur w) = Grid.WNull ->
      Grid.pending w = Some (Grid.board (Grid.cur w), Grid.WNull)).

(** The events of a run are clicks on squares below [n]. *)
Definition clicksBelow (n : nat) (es : list (Flat.event * nat)) : Prop :=
  Forall (fun er => match fst er with
                    | Flat.Click idx => idx < n
                    | _ => False
                    end) es.

(** The board and the outcome with the marks exchanged. *)
Definition swapMarks (squares : list cell) : list cell :=
  map (option_map other) squares.

Definition swapOutcome (o : Outcome) : Outcome :=
  match o with
  | Win m => Win (other m)
  | InProgress => InProgress
  | Draw => Draw
  end.

(** ** Sample sessions *)

(** Against the opponent of the grid variants, after the first click:
    the opponent's timer is pending. *)
Definition gridAnswerDue : Grid.world :=
  Grid.run (Grid.initial Grid.MODE_AI) [(Grid.CellClick 0 0, 0)].

(** Against the opponent of the grid variants: "X" holds two squares of
    the top row, "O" two squares of the middle row, "X" to move. *)
Definition gridMatchPoint : Grid.world :=
  Grid.run (Grid.initial Grid.MODE_AI)
    [ (Grid.CellClick 0 0, 0); (Grid.TimerFires, 2);
      (Grid.CellClick 0 1, 0); (Grid.TimerFires, 1) ].

(** Against the opponent of App.js, after the first click and the
    opponent's answer on the centre. *)
Definition flatSecondTurn : Flat.world :=
  Flat.run (Flat.initial Flat.ModeAI) [(Flat.Click 0, 0); (Flat.TimerFires, 0)].

(** * Theorems *)


(** ** The evaluators *)

Lemma jsGet_Some (sq : list cell) (a : nat) (m : Mark) :
  jsGet sq a = Some m <-> sq !! a = Some (Some m).
Proof.
  unfold jsGet. destruct (sq !! a) as [c|]; simpl; split; congruence.
Qed.

Lemma strictEq_true (a b : cell) : strictEq a b = true <-> a = b.
Proof. unfold strictEq. apply bool_decide_eq_true. Qed.

Lemma lineHit_full (sq : list cell) (l : nat * nat * nat) :
  Flat.lineHit sq l = true <->
  exists m, fullLine sq m l /\ jsGet sq (fst (fst l)) = Some m.
Proof.
  destruct l as [[a b] c]. unfold Flat.lineHit, fullLine. simpl.
  rewrite !andb_true_iff, !strictEq_true. split.
  - intros [[Ht Hb] Hc]. destruct (jsGet sq a) as [m|] eqn:Ha; [|discriminate].
    exists m. symmetry in Hb, Hc.
    apply jsGet_Some in Ha, Hb, Hc. auto.
  - intros (m & (Ha & Hb & Hc) & _).
    apply jsGet_Some in Ha, Hb, Hc. rewrite Ha, Hb, Hc. auto.
Qed.

Lemma fullLine_hit (sq : list cell) (m : Mark) (l : nat * nat * nat) :
  fullLine sq m l -> Flat.lineHit sq l = true /\ jsGet sq (fst (fst l)) = Some m.
Proof.
  intros H. split.
  - apply lineHit_full. exists m. split; [done|].
    destruct l as [[a b] c]. apply jsGet_Some, H.
  - destruct l as [[a b] c]. apply jsGet_Some, H.
Qed.

Lemma lineHit_false (sq : list cell) (l : nat * nat * nat) (m : Mark) :
  Flat.lineHit sq l = false -> ~ fullLine sq m l.
Proof. intros Hf H. apply fullLine_hit in H as [H _]. congruence. Qed.

(** The loop returns the mark of the first full line. *)
Lemma scanLines_Some (sq : list cell) (ls : list (nat * nat * nat)) (m : Mark) :
  Flat.scanLines sq ls = Some m <->
  exists i l, ls !! i = Some l /\ fullLine sq m l
    /\ forall j l' m', j < i -> ls !! j = Some l' -> ~ fullLine sq m' l'.
Proof.
  induction ls as [|l ls IH]; simpl.
  - split; [discriminate|]. intros (i & l & H & _). destruct i; discriminate.
  - destruct (Flat.lineHit sq l) eqn:Hl.
    + apply lineHit_full in Hl as (m0 & Hfull & Hget). rewrite Hget. split.
      * intros [= ->]. exists 0, l. repeat split; auto. intros; lia.
      * intros (i & l1 & Hi & Hf & Hfirst). destruct i as [|i].
        -- simpl in Hi. injection Hi as <-.
           apply fullLine_hit in Hf as [_ Hf]. congruence.
        -- exfalso. apply (Hfirst 0 l m0); [lia|done|done].
    + rewrite IH. split.
      * intros (i & l1 & Hi & Hf & Hfirst). exists (S i), l1.
        repeat split; auto. intros [|j] l' m' Hj Hl'; simpl in Hl'.
        -- injection Hl' as <-. by apply lineHit_false.
        -- apply (Hfirst j); [lia|done].
      * intros (i & l1 & Hi & Hf & Hfirst). destruct i as [|i].
        -- simpl in Hi. injection Hi as <-.
           exfalso. by apply (lineHit_false sq l m).
        -- exists i, l1. repeat split; auto.
           intros j l' m' Hj Hl'. apply (Hfirst (S j)); [lia|done].
Qed.

Lemma scanLines_None (sq : list cell) (ls : list (nat * nat * nat)) :
  Flat.scanLines sq ls = None <->
  forall l m, l ∈ ls -> ~ fullLine sq m l.
Proof.
  induction ls as [|l ls IH]; simpl.
  - split; [|done]. intros _ l m H. by apply not_elem_of_nil in H.
  - destruct (Flat.lineHit sq l) eqn:Hl.
    + apply lineHit_full in Hl as (m0 & Hfull & Hget). rewrite Hget.
      split; [discriminate|]. intros H. exfalso. apply (H l m0); [left|done].
    + rewrite IH. split.
      * intros H l' m [->|Hin]%elem_of_cons; [by apply lineHit_false|by apply H].
      * intros H l' m Hin. apply H. by right.
Qed.

Lemma forallb_truthy (sq : list cell) :
  forallb truthy sq = true <-> ~ hasEmpty sq.
Proof.
  unfold hasEmpty. rewrite forallb_forall. split.
  - intros H (i & Hi). apply list_elem_of_lookup_2, list_elem_of_In, H in Hi.
    discriminate.
  - intros H c Hc. destruct c; [done|]. exfalso. apply H.
    apply list_elem_of_In, list_elem_of_lookup in Hc. done.
Qed.

Lemma flat_noFull (sq : list cell) :
  Flat.calculateWinner sq = None <-> noFullLine sq.
Proof.
  unfold Flat.calculateWinner. rewrite scanLines_None.
  unfold noFullLine, someFull. split.
  - intros H m (l & Hl & Hf). by apply (H l m).
  - intros H l m Hl Hf. apply (H m). by exists l.
Qed.

Lemma firstFull_someFull (sq : list cell) (m : Mark) :
  firstFull sq m -> someFull sq m.
Proof.
  intros (i & l & Hi & Hf & _). exists l. split; [|done].
  by apply list_elem_of_lookup_2 in Hi.
Qed.

(** The evaluator of App.js classifies every board. *)
Lemma flat_classifies (sq : list cell) : Classifies (Flat.evaluate sq) sq.
Proof.
  assert (Hwin : forall m, Flat.evaluate sq = Win m <-> firstFull sq m).
  { intros m. unfold firstFull. rewrite <- scanLines_Some.
    unfold Flat.evaluate, Flat.calculateWinner.
    destruct (Flat.scanLines sq Flat.lines);
      [|destruct (forallb truthy sq)]; split; congruence. }
  assert (Hnone : Flat.calculateWinner sq = None <-> noFullLine sq)
    by apply flat_noFull.
  split; [exact Hwin|]. split; [|split].
  - intros m Hother. rewrite Hwin. split; [apply firstFull_someFull|].
    intros Hsome. destruct (Flat.calculateWinner sq) as [m'|] eqn:Hc.
    + assert (Hm' : firstFull sq m').
      { apply Hwin. unfold Flat.evaluate. by rewrite Hc. }
      destruct m, m'; try done; exfalso; apply Hother;
        by apply firstFull_someFull.
    + exfalso. apply flat_noFull in Hc. by apply (Hc m).
  - unfold Flat.evaluate. rewrite <- Hnone, <- forallb_truthy.
    destruct (Flat.calculateWinner sq); [|destruct (forallb truthy sq)];
      intuition congruence.
  - unfold Flat.evaluate. rewrite <- Hnone.
    assert (Hb : hasEmpty sq <-> forallb truthy sq = false).
    { rewrite <- not_true_iff_false, forallb_truthy.
      split; [tauto|]. intros H.
      destruct (forallb truthy sq) eqn:E.
      - apply forallb_truthy in E. tauto.
      - apply not_true_iff_false in E. rewrite forallb_truthy in E.
        unfold hasEmpty in *.
        destruct (decide (None ∈ sq)) as [Hin|Hin].
        + by apply list_elem_of_lookup in Hin.
        + exfalso. apply E. intros (i & Hi).
          by apply list_elem_of_lookup_2 in Hi. }
    rewrite Hb.
    destruct (Flat.calculateWinner sq); [|destruct (forallb truthy sq)];
      intuition congruence.
Qed.

(** ** Checks that run through every board *)

Lemma forallBoards_sound (n : nat) (P : list cell -> bool) :
  forallBoards n P = true ->
  forall sq, length sq = n -> P sq = true.
Proof.
  revert P. induction n as [|n IH]; intros P H sq Hlen.
  - destruct sq; [exact H|discriminate].
  - destruct sq as [|c sq]; [discriminate|].
    simpl in H. rewrite !andb_true_iff in H. destruct H as (H0 & HX & HO & _).
    injection Hlen as Hlen.
    destruct c as [[|]|]; [apply (IH _ HX)|apply (IH _ HO)|apply (IH _ H0)];
      exact Hlen.
Qed.

(** On every board of nine squares the two evaluators agree. *)
Lemma evaluators_agree (sq : list cell) :
  length sq = 9 -> Grid.evaluate (toGrid sq) = Flat.evaluate sq.
Proof.
  intros Hlen.
  assert (Hall : forallBoards 9
            (fun sq => bool_decide (Grid.evaluate (toGrid sq) = Flat.evaluate sq))
          = true) by (vm_compute; reflexivity).
  apply forallBoards_sound with (sq := sq) in Hall; [|exact Hlen].
  by apply bool_decide_eq_true in Hall.
Qed.

Lemma toGrid_concat (g : list (list cell)) :
  wellFormed g -> length (concat g) = 9 /\ toGrid (concat g) = g.
Proof.
  intros [Hlen Hrows].
  destruct g as [|r0 [|r1 [|r2 [|? ?]]]]; try discriminate.
  apply Forall_cons in Hrows as [H0 Hrows].
  apply Forall_cons in Hrows as [H1 Hrows].
  apply Forall_cons in Hrows as [H2 _].
  destruct r0 as [|? [|? [|? [|? ?]]]]; try discriminate.
  destruct r1 as [|? [|? [|? [|? ?]]]]; try discriminate.
  destruct r2 as [|? [|? [|? [|? ?]]]]; try discriminate.
  split; reflexivity.
Qed.


(** ** The opponent policies *)

Lemma emptyFrom_cons (k : nat) (c : cell) (sq : list cell) :
  emptyFrom k (c :: sq)
  = (if truthy c then [] else [k]) ++ emptyFrom (S k) sq.
Proof.
  unfold emptyFrom. rewrite imap_cons. simpl.
  replace (k + 0) with k by lia.
  rewrite (imap_ext _ (fun i val => if truthy val then None else Some (S k + i))).
  - by destruct (truthy c).
  - intros i x _. simpl. by replace (k + S i) with (S (k + i)) by lia.
Qed.

Lemma emptyIndices_from (sq : list cell) : Flat.emptyIndices sq = emptyFrom 0 sq.
Proof. reflexivity. Qed.

Lemma emptyFrom_elem (k : nat) (sq : list cell) (i : nat) :
  i ∈ emptyFrom k sq <-> k <= i /\ sq !! (i - k) = Some None.
Proof.
  revert k. induction sq as [|c sq IH]; intros k.
  - unfold emptyFrom. simpl. split; [by intros ?%not_elem_of_nil|].
    by intros [_ ?].
  - rewrite emptyFrom_cons, elem_of_app, IH. split.
    + intros [H|[Hle H]].
      * destruct c; simpl in H; [by apply not_elem_of_nil in H|].
        apply list_elem_of_singleton in H as ->.
        split; [lia|]. by replace (k - k) with 0 by lia.
      * split; [lia|]. by replace (i - k) with (S (i - S k)) by lia.
    + intros [Hle H]. destruct (decide (i = k)) as [->|Hne].
      * left. replace (k - k) with 0 in H by lia. simpl in H.
        injection H as ->. simpl. by apply list_elem_of_singleton.
      * right. split; [lia|].
        by replace (i - k) with (S (i - S k)) in H by lia.
Qed.

Lemma emptyIndices_elem (sq : list cell) (i : nat) :
  i ∈ Flat.emptyIndices sq <-> sq !! i = Some None.
Proof.
  rewrite emptyIndices_from, emptyFrom_elem.
  replace (i - 0) with i by lia. split; [by intros [_ ?]|]. split; [lia|done].
Qed.

(** The empty squares come in increasing order. *)
Lemma emptyFrom_increasing (k : nat) (sq : list cell) (a b i j : nat) :
  emptyFrom k sq !! a = Some i -> emptyFrom k sq !! b = Some j ->
  a < b -> i < j.
Proof.
  revert k a b. induction sq as [|c sq IH]; intros k a b.
  - unfold emptyFrom. simpl. discriminate.
  - rewrite emptyFrom_cons. destruct (truthy c); simpl.
    + apply IH.
    + destruct a as [|a], b as [|b]; simpl; try lia.
      * intros [= <-] Hj _.
        apply list_elem_of_lookup_2, emptyFrom_elem in Hj. lia.
      * intros Hi Hj Hab. apply (IH (S k) a b); [done|done|lia].
Qed.

(** [find] on the empty squares returns the least one that passes. *)
Lemma find_emptyFrom (P : nat -> bool) (k : nat) (sq : list cell) (i : nat) :
  find P (emptyFrom k sq) = Some i ->
  P i = true /\ i ∈ emptyFrom k sq
  /\ forall j, j ∈ emptyFrom k sq -> j < i -> P j = false.
Proof.
  revert k. induction sq as [|c sq IH]; intros k.
  - unfold emptyFrom. simpl. discriminate.
  - rewrite emptyFrom_cons. destruct (truthy c); simpl.
    + apply IH.
    + destruct (P k) eqn:Hk.
      * intros [= <-]. repeat split; [done|by left|].
        intros j [->|Hj]%elem_of_cons Hlt; [lia|].
        apply emptyFrom_elem in Hj. lia.
      * intros H. apply IH in H as (HP & Hin & Hleast).
        repeat split; [done|by right|].
        intros j [->|Hj]%elem_of_cons Hlt; [done|]. by apply Hleast.
Qed.

Lemma find_emptyIndices_None (P : nat -> bool) (sq : list cell) :
  find P (Flat.emptyIndices sq) = None ->
  forall j, sq !! j = Some None -> P j = false.
Proof.
  intros H j Hj. apply (find_none _ _ H).
  by apply list_elem_of_In, emptyIndices_elem.
Qed.

Lemma winsWith_evaluate (sq : list cell) (m : Mark) (i : nat) :
  Flat.winsWith sq m i = true <-> Flat.evaluate (jsSet sq i (Some m)) = Win m.
Proof.
  unfold Flat.winsWith, Flat.evaluate. rewrite strictEq_true.
  destruct (Flat.calculateWinner _);
    [|destruct (forallb truthy _)]; split; congruence.
Qed.

(** The first empty square that passes the test of a loop of
    [getAIMove] is the one [find] returns. *)
Lemma find_winning (sq : list cell) (m : Mark) (i : nat) :
  find (Flat.winsWith sq m) (Flat.emptyIndices sq) = Some i <->
  firstSuch (winningSquare sq m) i.
Proof.
  unfold firstSuch, winningSquare. split.
  - intros H. rewrite emptyIndices_from in H.
    apply find_emptyFrom in H as (HP & Hin & Hleast).
    rewrite <- emptyIndices_from in *.
    apply emptyIndices_elem in Hin. apply winsWith_evaluate in HP.
    split; [done|]. intros j Hj [Hempty Hwin].
    apply emptyIndices_elem in Hempty. apply winsWith_evaluate in Hwin.
    rewrite (Hleast j Hempty Hj) in Hwin. discriminate.
  - intros [[Hempty Hwin] Hleast].
    destruct (find _ _) as [i'|] eqn:Hf.
    + rewrite emptyIndices_from in Hf.
      apply find_emptyFrom in Hf as (HP & Hin & Hleast').
      rewrite <- emptyIndices_from in *.
      apply emptyIndices_elem in Hin. apply winsWith_evaluate in HP.
      destruct (lt_eq_lt_dec i i') as [[Hlt| ->]|Hgt]; [| done |].
      * apply emptyIndices_elem in Hempty. apply winsWith_evaluate in Hwin.
        rewrite (Hleast' i Hempty Hlt) in Hwin. discriminate.
      * exfalso. by apply (Hleast i' Hgt).
    + apply winsWith_evaluate in Hwin.
      rewrite (find_emptyIndices_None _ _ Hf i Hempty) in Hwin. discriminate.
Qed.

Lemma find_winning_None (sq : list cell) (m : Mark) :
  find (Flat.winsWith sq m) (Flat.emptyIndices sq) = None <->
  forall i, ~ winningSquare sq m i.
Proof.
  split.
  - intros Hf i [Hempty Hwin]. apply winsWith_evaluate in Hwin.
    rewrite (find_emptyIndices_None _ _ Hf i Hempty) in Hwin. discriminate.
  - intros H. destruct (find _ _) as [i|] eqn:Hf; [|done].
    apply find_winning in Hf as [Hf _]. by apply H in Hf.
Qed.

Lemma emptyIndices_nil (sq : list cell) :
  Flat.emptyIndices sq = [] <-> ~ hasEmpty sq.
Proof.
  unfold hasEmpty. split.
  - intros H (i & Hi). apply emptyIndices_elem in Hi. rewrite H in Hi.
    by apply not_elem_of_nil in Hi.
  - intros H. destruct (Flat.emptyIndices sq) as [|i E] eqn:HE; [done|].
    exfalso. apply H. exists i. apply emptyIndices_elem. rewrite HE. by left.
Qed.

(** Whatever [getAIMove] returns is one of the empty squares. *)
Lemma getAIMove_empty (sq : list cell) (rnd i : nat) :
  Flat.getAIMove sq rnd = Some i -> sq !! i = Some None.
Proof.
  unfold Flat.getAIMove. intros H. apply emptyIndices_elem.
  destruct (find (Flat.winsWith sq O) _) as [i1|] eqn:H1.
  { injection H as <-. apply find_some in H1 as [H1 _].
    by apply list_elem_of_In. }
  destruct (find (Flat.winsWith sq X) _) as [i2|] eqn:H2.
  { injection H as <-. apply find_some in H2 as [H2 _].
    by apply list_elem_of_In. }
  case_bool_decide as H4; [by injection H as <-|].
  destruct (Flat.emptyIndices sq) as [|e E] eqn:HE; [discriminate|].
  by apply list_elem_of_lookup_2 in H.
Qed.

Lemma emptySquares_elem (g : list (list cell)) (i j : nat) :
  (i, j) ∈ Grid.emptySquares g <->
  i < 3 /\ j < 3 /\ Grid.rawAt g i j = Some None.
Proof.
  unfold Grid.emptySquares, Grid.BOARD_SIZE.
  rewrite list_elem_of_In, in_flat_map. split.
  - intros (i' & Hi' & H). apply in_flat_map in H as (j' & Hj' & H).
    apply list_elem_of_In, elem_of_seq in Hi', Hj'.
    case_bool_decide as Hraw; [|by apply in_nil in H].
    destruct H as [[= <- <-]|[]]. repeat split; [lia|lia|done].
  - intros (Hi & Hj & Hraw). exists i. split.
    + apply list_elem_of_In, elem_of_seq. lia.
    + apply in_flat_map. exists j. split.
      * apply list_elem_of_In, elem_of_seq. lia.
      * rewrite bool_decide_eq_true_2 by done. by left.
Qed.

Lemma aiMove_empty (g : list (list cell)) (rnd i j : nat) :
  Grid.aiMove g rnd = Some (i, j) ->
  i < 3 /\ j < 3 /\ Grid.rawAt g i j = Some None.
Proof.
  unfold Grid.aiMove. intros H. apply emptySquares_elem.
  destruct (Grid.emptySquares g) eqn:HE; [discriminate|].
  by apply list_elem_of_lookup_2 in H.
Qed.


(** ** The component of App.js *)

Lemma flat_sameRender_refl (w : Flat.world) : Flat.sameRender w w = true.
Proof. unfold Flat.sameRender. by rewrite !bool_decide_eq_true_2. Qed.

(** A handler that returns early leaves everything as it was. *)
Lemma flat_deliver_nil (rnd : nat) (w : Flat.world) : Flat.deliver rnd [] w = w.
Proof. unfold Flat.deliver. simpl. by rewrite flat_sameRender_refl. Qed.

Lemma gameEndEffect_cached (s : Flat.session) :
  Flat.gameEndEffect s
  = [Flat.SetStatus (fst (Flat.cached (Flat.evaluate (Flat.board s))));
     Flat.SetWinner (snd (Flat.cached (Flat.evaluate (Flat.board s))))].
Proof.
  unfold Flat.gameEndEffect, Flat.evaluate.
  destruct (Flat.calculateWinner _); [done|]. by destruct (forallb truthy _).
Qed.

Lemma aiMoveEffect_cases (s : Flat.session) (rnd : nat) :
  Flat.aiMoveEffect s rnd = []
  \/ exists nb, Flat.aiMoveEffect s rnd = [Flat.SetTimeout nb].
Proof.
  unfold Flat.aiMoveEffect.
  destruct (_ && _); [|by left].
  destruct (Flat.getAIMove _ _); [right; eauto|by left].
Qed.

(** One commit: what the effects leave of the render they ran in. *)
Lemma flat_pass_board_changed (rnd : nat) (prev now : Flat.world) :
  Flat.boardRef prev <> Flat.boardRef now ->
  let w := Flat.performAll now (Flat.runEffects rnd prev now) in
  Flat.boardRef w = Flat.boardRef now
  /\ Flat.mode (Flat.cur w) = Flat.mode (Flat.cur now)
  /\ Flat.board (Flat.cur w) = Flat.board (Flat.cur now)
  /\ Flat.isXNext (Flat.cur w) = Flat.isXNext (Flat.cur now)
  /\ (Flat.status (Flat.cur w), Flat.winner (Flat.cur w))
     = Flat.cached (Flat.evaluate (Flat.board (Flat.cur now))).
Proof.
  intros Hne. unfold Flat.runEffects.
  rewrite (bool_decide_eq_false_2 _ Hne). cbn [andb].
  rewrite gameEndEffect_cached.
  destruct (Flat.cached _) as [st wn].
  destruct (aiMoveEffect_cases (Flat.cur now) rnd) as [->|[nb ->]];
    destruct now as [[md b x st0 wn0] ref ts]; simpl; auto.
Qed.

Lemma flat_pass_board_same (rnd : nat) (prev now : Flat.world) :
  Flat.boardRef prev = Flat.boardRef now ->
  let w := Flat.performAll now (Flat.runEffects rnd prev now) in
  Flat.boardRef w = Flat.boardRef now /\ Flat.cur w = Flat.cur now.
Proof.
  intros He. unfold Flat.runEffects.
  rewrite (bool_decide_eq_true_2 _ He). cbn [andb app].
  destruct (_ && _); [done|].
  destruct (aiMoveEffect_cases (Flat.cur now) rnd) as [->|[nb ->]];
    destruct now as [s ref ts]; simpl; auto.
Qed.

Lemma flat_sameRender_true (w1 w2 : Flat.world) :
  Flat.boardRef w1 = Flat.boardRef w2 -> Flat.cur w1 = Flat.cur w2 ->
  Flat.sameRender w1 w2 = true.
Proof.
  intros H1 H2. unfold Flat.sameRender. by rewrite !bool_decide_eq_true_2.
Qed.

Lemma flat_sameRender_boardRef (w1 w2 : Flat.world) :
  Flat.sameRender w1 w2 = true -> Flat.boardRef w1 = Flat.boardRef w2.
Proof.
  unfold Flat.sameRender. rewrite andb_true_iff, !bool_decide_eq_true. tauto.
Qed.

(** Three renders are enough: more fuel changes nothing. *)
Lemma flat_flush_enough (k rnd : nat) (prev now : Flat.world) :
  Flat.flush (3 + k) rnd prev now = Flat.flush 3 rnd prev now.
Proof.
  simpl. destruct (Flat.sameRender prev now) eqn:H1; [done|].
  set (w2 := Flat.performAll now _).
  destruct (Flat.sameRender now w2) eqn:H2; [done|].
  set (w3 := Flat.performAll w2 _).
  assert (Href : Flat.boardRef now = Flat.boardRef w2).
  { destruct (decide (Flat.boardRef prev = Flat.boardRef now)) as [He|Hne].
    - symmetry. apply (flat_pass_board_same rnd prev now He).
    - symmetry. apply (flat_pass_board_changed rnd prev now Hne). }
  destruct (flat_pass_board_same rnd now w2 Href) as [Hr Hc].
  fold w3 in Hr, Hc.
  rewrite (flat_sameRender_true w2 w3) by done.
  by destruct k.
Qed.

(** A batch that replaces the board: the state once the renders have
    settled. *)
Lemma flat_deliver_board (rnd : nat) (acts : list Flat.action) (w : Flat.world) :
  let w1 := Flat.performAll w acts in
  Flat.boardRef w <> Flat.boardRef w1 ->
  let w' := Flat.deliver rnd acts w in
  Flat.boardRef w' = Flat.boardRef w1
  /\ Flat.mode (Flat.cur w') = Flat.mode (Flat.cur w1)
  /\ Flat.board (Flat.cur w') = Flat.board (Flat.cur w1)
  /\ Flat.isXNext (Flat.cur w') = Flat.isXNext (Flat.cur w1)
  /\ (Flat.status (Flat.cur w'), Flat.winner (Flat.cur w'))
     = Flat.cached (Flat.evaluate (Flat.board (Flat.cur w1))).
Proof.
  intros w1 Hne w'. unfold w', Flat.deliver. fold w1. simpl.
  destruct (Flat.sameRender w w1) eqn:H1.
  { by apply flat_sameRender_boardRef in H1. }
  pose proof (flat_pass_board_changed rnd w w1 Hne) as H2. simpl in H2.
  set (w2 := Flat.performAll w1 _) in *.
  destruct H2 as (Hr & Hm & Hb & Hx & Hs).
  destruct (Flat.sameRender w1 w2) eqn:H3; [done|].
  pose proof (flat_pass_board_same rnd w1 w2 (eq_sym Hr)) as H4. simpl in H4.
  set (w3 := Flat.performAll w2 _) in *. destruct H4 as [Hr3 Hc3].
  rewrite (flat_sameRender_true w2 w3) by done.
  rewrite Hr3, Hc3. done.
Qed.

(** The guards of [handleSquareClick]. *)
Lemma flat_click_rejected (s : Flat.session) (idx : nat) :
  Flat.handleSquareClick s idx = [] <->
  Flat.status s <> Flat.StOngoing
  \/ jsGet (Flat.board s) idx <> None
  \/ (Flat.mode s = Flat.ModeAI /\ Flat.isXNext s = false).
Proof.
  unfold Flat.handleSquareClick.
  destruct (jsGet _ _) as [m|]; simpl.
  { split; [right; left; done|done]. }
  case_bool_decide as Hst; simpl.
  - case_bool_decide as Hmd; simpl.
    + destruct (Flat.isXNext s); simpl.
      * split; [done|]. intros [?|[?|[_ ?]]]; done.
      * split; auto.
    + split; [done|]. intros [?|[?|[? _]]]; done.
  - split; auto.
Qed.

Lemma flat_click_accepted (s : Flat.session) (idx : nat) :
  Flat.handleSquareClick s idx <> [] ->
  Flat.handleSquareClick s idx
  = [Flat.SetBoard (jsSet (Flat.board s) idx
                      (Some (if Flat.isXNext s then X else O)));
     Flat.ToggleIsXNext].
Proof.
  unfold Flat.handleSquareClick.
  destruct (_ || _); [done|]. by destruct (_ && _).
Qed.

Lemma flat_accepted_iff (s : Flat.session) (idx : nat) :
  Flat.accepted s idx = true <-> Flat.handleSquareClick s idx <> [].
Proof. unfold Flat.accepted. by destruct (Flat.handleSquareClick s idx). Qed.

(** The session after an accepted click. *)
Lemma flat_step_click (rnd : nat) (w : Flat.world) (idx : nat) :
  Flat.handleSquareClick (Flat.cur w) idx <> [] ->
  let nb := jsSet (Flat.board (Flat.cur w)) idx
              (Some (if Flat.isXNext (Flat.cur w) then X else O)) in
  let w' := Flat.step rnd w (Flat.Click idx) in
  Flat.mode (Flat.cur w') = Flat.mode (Flat.cur w)
  /\ Flat.board (Flat.cur w') = nb
  /\ Flat.isXNext (Flat.cur w') = negb (Flat.isXNext (Flat.cur w))
  /\ (Flat.status (Flat.cur w'), Flat.winner (Flat.cur w'))
     = Flat.cached (Flat.evaluate nb).
Proof.
  intros Hacc nb w'. unfold w', Flat.step. cbn [Flat.dispatch fst snd].
  rewrite (flat_click_accepted _ _ Hacc).
  pose proof (flat_deliver_board rnd
    [Flat.SetBoard nb; Flat.ToggleIsXNext] w) as H.
  simpl in H. destruct H as (_ & Hm & Hb & Hx & Hs); [lia|]. done.
Qed.

(** The session after [handleReset] and after [handleModeChange]. *)
Lemma flat_step_reset (rnd : nat) (w : Flat.world) :
  Flat.cur (Flat.step rnd w Flat.NewGame)
  = Flat.mkSession (Flat.mode (Flat.cur w)) (replicate 9 None) true
      Flat.StOngoing None.
Proof.
  pose proof (flat_deliver_board rnd Flat.handleReset w) as H.
  simpl in H. destruct H as (_ & Hm & Hb & Hx & Hs); [lia|].
  unfold Flat.step. cbn [Flat.dispatch fst snd].
  destruct (Flat.cur (Flat.deliver rnd Flat.handleReset w)).
  simpl in *. injection Hs as -> ->. by subst.
Qed.

Lemma flat_step_mode (rnd : nat) (w : Flat.world) (m : Flat.Mode) :
  Flat.cur (Flat.step rnd w (Flat.SelectMode m))
  = Flat.mkSession m (replicate 9 None) true Flat.StOngoing None.
Proof.
  pose proof (flat_deliver_board rnd (Flat.handleModeChange m) w) as H.
  simpl in H. destruct H as (_ & Hm & Hb & Hx & Hs); [lia|].
  unfold Flat.step. cbn [Flat.dispatch fst snd].
  destruct (Flat.cur (Flat.deliver rnd (Flat.handleModeChange m) w)).
  simpl in *. injection Hs as -> ->. by subst.
Qed.

(** The timer callback gives the turn to "X". *)
Lemma flat_step_timer (rnd : nat) (w : Flat.world) (nb : list cell)
    (rest : list (list cell)) :
  Flat.timers w = nb :: rest ->
  let w' := Flat.step rnd w Flat.TimerFires in
  Flat.board (Flat.cur w') = nb /\ Flat.isXNext (Flat.cur w') = true.
Proof.
  intros Ht. cbn zeta. unfold Flat.step. cbn [Flat.dispatch]. rewrite Ht.
  cbn [fst snd].
  pose proof (flat_deliver_board rnd (Flat.timerCallback nb)
    (Flat.mkWorld (Flat.cur w) (Flat.boardRef w) rest)) as H.
  simpl in H. destruct H as (_ & Hm & Hb & Hx & Hs); [lia|]. done.
Qed.

Lemma iter_negb_shift (n : nat) (b : bool) :
  Nat.iter n negb (negb b) = Nat.iter (S n) negb b.
Proof. induction n as [|n IH]; simpl in *; congruence. Qed.

Lemma flat_placements_turn (es : list (Flat.event * nat)) (w w' : Flat.world) :
  Flat.placements w es = Some w' ->
  Flat.isXNext (Flat.cur w')
  = Nat.iter (length es) negb (Flat.isXNext (Flat.cur w)).
Proof.
  revert w. induction es as [|[e rnd] es IH]; intros w;
    cbn [Flat.placements length].
  - by intros [= ->].
  - destruct (Flat.legalPlacement w e) eqn:Hlegal; [|discriminate].
    intros H. apply IH in H. rewrite H, <- iter_negb_shift. f_equal.
    destruct e as [idx| | |]; cbn [Flat.legalPlacement] in Hlegal;
      try discriminate.
    + apply flat_accepted_iff in Hlegal.
      apply (flat_step_click rnd w idx Hlegal).
    + apply andb_true_iff in Hlegal as [Hx Ht].
      apply negb_true_iff in Hx. rewrite Hx.
      destruct (Flat.timers w) as [|nb rest] eqn:Htimers; [discriminate|].
      apply (flat_step_timer rnd w nb rest Htimers).
Qed.

(** The opponent effect does nothing on the turn of "X" or once the
    game is over. *)
Lemma aiMoveEffect_idle (s : Flat.session) (rnd : nat) :
  Flat.isXNext s = true \/ Flat.status s <> Flat.StOngoing ->
  Flat.aiMoveEffect s rnd = [].
Proof.
  unfold Flat.aiMoveEffect. intros [Hx|Hst].
  - by rewrite Hx, andb_false_r.
  - by rewrite (bool_decide_eq_false_2 _ Hst), andb_false_r.
Qed.

(** In the second commit of an event the effects do nothing at all: the
    draw handed to [step] is used in the first commit only. *)
Lemma flat_second_commit_idle (rnd : nat) (w : Flat.world) (e : Flat.event) :
  let w0 := snd (Flat.dispatch w e) in
  let w1 := Flat.performAll w0 (fst (Flat.dispatch w e)) in
  let w2 := Flat.performAll w1 (Flat.runEffects rnd w0 w1) in
  Flat.runEffects rnd w1 w2 = [].
Proof.
  intros w0 w1 w2.
  destruct (decide (Flat.boardRef w0 = Flat.boardRef w1)) as [Href|Href].
  - (* no setter was called: an early return, or no timer to fire *)
    destruct (flat_pass_board_same rnd w0 w1 Href) as [Hr Hc]. fold w2 in Hr, Hc.
    unfold Flat.runEffects. rewrite <- Hr, Hc.
    by rewrite !bool_decide_eq_true_2.
  - destruct (flat_pass_board_changed rnd w0 w1 Href) as (Hr & Hm & Hb & Hx & Hs).
    fold w2 in Hr, Hm, Hb, Hx, Hs.
    unfold Flat.runEffects. rewrite (bool_decide_eq_true_2 _ (eq_sym Hr)).
    rewrite (bool_decide_eq_true_2 _ (eq_sym Hx)),
      (bool_decide_eq_true_2 _ (eq_sym Hm)). cbn [andb app].
    case_bool_decide as Hst; [done|].
    apply aiMoveEffect_idle.
    assert (Hcase : Flat.isXNext (Flat.cur w1) = true
                    \/ Flat.status (Flat.cur w1) = Flat.StOngoing).
    { unfold w1, w0. destruct e as [idx| |m|]; cbn [Flat.dispatch fst snd].
      - destruct (decide (Flat.handleSquareClick (Flat.cur w) idx = [])) as [He|He].
        + exfalso. apply Href. unfold w1, w0. cbn [Flat.dispatch fst snd].
          by rewrite He.
        + right. rewrite (flat_click_accepted _ _ He).
          cbn. apply dec_stable. intros Hn. apply He.
          apply flat_click_rejected. by left.
      - by left.
      - by left.
      - destruct (Flat.timers w) as [|nb rest] eqn:Htimers; [|by left].
        exfalso. apply Href. unfold w1, w0. cbn [Flat.dispatch].
        by rewrite Htimers. }
    destruct Hcase as [Hx1|Hst1]; [left; congruence|].
    right. intros Hst2. apply Hst. congruence.
Qed.


(** ** The component of the grid variants *)

Lemma grid_sameRender_refl (w : Grid.world) : Grid.sameRender w w = true.
Proof. unfold Grid.sameRender. by rewrite !bool_decide_eq_true_2. Qed.

Lemma grid_sameRender_true (w1 w2 : Grid.world) :
  Grid.boardRef w1 = Grid.boardRef w2 -> Grid.cur w1 = Grid.cur w2 ->
  Grid.sameRender w1 w2 = true.
Proof.
  intros H1 H2. unfold Grid.sameRender. by rewrite !bool_decide_eq_true_2.
Qed.

Lemma grid_sameRender_inv (w1 w2 : Grid.world) :
  Grid.sameRender w1 w2 = true ->
  Grid.cur w1 = Grid.cur w2 /\ Grid.boardRef w1 = Grid.boardRef w2.
Proof.
  unfold Grid.sameRender. by rewrite andb_true_iff, !bool_decide_eq_true.
Qed.

Lemma grid_deliver_nil (w : Grid.world) : Grid.deliver [] w = w.
Proof.
  unfold Grid.deliver. cbn [Grid.performAll foldl Grid.flush].
  by rewrite grid_sameRender_refl.
Qed.

Lemma grid_empty_no_winner : Grid.calculateWinner Grid.emptyBoard = Grid.WNull.
Proof. reflexivity. Qed.

(** Case analysis on the effects of one commit, the result of
    [calculateWinner] kept abstract. *)
Ltac grid_effects :=
  unfold Grid.runEffects, Grid.winnerEffect, Grid.aiEffect, Grid.resetGame;
  cbn [Grid.cur Grid.boardRef Grid.pending Grid.mode Grid.board Grid.xIsNext
       Grid.winner Grid.aiThinking];
  match goal with
  | |- context [Grid.calculateWinner ?b] =>
      generalize (Grid.calculateWinner b); intros res
  | _ => idtac
  end.

(** The commit after a change of mode resets the game. *)
Lemma grid_pass_mode_changed (prev now : Grid.world) :
  Grid.mode (Grid.cur prev) <> Grid.mode (Grid.cur now) ->
  let w := Grid.performAll now (Grid.runEffects prev now) in
  Grid.cur w = Grid.fresh (Grid.mode (Grid.cur now))
  /\ Grid.boardRef w = S (Grid.boardRef now).
Proof.
  intros Hne. destruct prev as [[md0 b0 x0 wn0 th0] ref0 p0].
  destruct now as [[md b x wn th] ref p]. cbn in Hne.
  grid_effects.
  rewrite (bool_decide_eq_false_2 (md0 = md)) by done.
  destruct (bool_decide (ref0 = ref)), res as [|m|], md, wn as [|m'|], x;
    cbn; done.
Qed.

(** Without a change of mode a commit keeps the board and the turn. *)
Lemma grid_pass_mode_same (prev now : Grid.world) :
  Grid.mode (Grid.cur prev) = Grid.mode (Grid.cur now) ->
  let w := Grid.performAll now (Grid.runEffects prev now) in
  Grid.boardRef w = Grid.boardRef now
  /\ Grid.mode (Grid.cur w) = Grid.mode (Grid.cur now)
  /\ Grid.board (Grid.cur w) = Grid.board (Grid.cur now)
  /\ Grid.xIsNext (Grid.cur w) = Grid.xIsNext (Grid.cur now)
  /\ (Grid.boardRef prev = Grid.boardRef now ->
      Grid.winner (Grid.cur w) = Grid.winner (Grid.cur now))
  /\ (Grid.boardRef prev <> Grid.boardRef now ->
      Grid.winner (Grid.cur w) = Grid.calculateWinner (Grid.board (Grid.cur now))).
Proof.
  intros He. destruct prev as [[md0 b0 x0 wn0 th0] ref0 p0].
  destruct now as [[md b x wn th] ref p]. cbn in He. subst md0.
  cbn [Grid.cur Grid.boardRef Grid.mode Grid.board Grid.xIsNext Grid.winner].
  remember (Grid.calculateWinner b) as res eqn:Hres.
  unfold Grid.runEffects, Grid.winnerEffect, Grid.aiEffect, Grid.resetGame.
  cbn [Grid.cur Grid.boardRef Grid.pending Grid.mode Grid.board Grid.xIsNext
       Grid.winner Grid.aiThinking].
  rewrite <- Hres. clear Hres.
  rewrite (bool_decide_eq_true_2 (md = md)) by done.
  destruct (decide (ref0 = ref)) as [Hr|Hr];
    [rewrite !(bool_decide_eq_true_2 (ref0 = ref)) by done
    |rewrite !(bool_decide_eq_false_2 (ref0 = ref)) by done];
    destruct (bool_decide (wn0 = wn)), (bool_decide (x0 = x)),
      res as [|m|], md, wn as [|m'|], x; cbn; repeat split; done.
Qed.

(** Nothing the opponent effect depends on changed and the board is the
    same array: the commit runs no effect. *)
Lemma grid_pass_idle (prev now : Grid.world) :
  Grid.mode (Grid.cur prev) = Grid.mode (Grid.cur now) ->
  Grid.winner (Grid.cur prev) = Grid.winner (Grid.cur now) ->
  Grid.xIsNext (Grid.cur prev) = Grid.xIsNext (Grid.cur now) ->
  Grid.boardRef prev = Grid.boardRef now ->
  Grid.performAll now (Grid.runEffects prev now) = now.
Proof.
  intros H1 H2 H3 H4. unfold Grid.runEffects.
  by rewrite !bool_decide_eq_true_2.
Qed.

(** The third commit after any batch of setter calls changes nothing. *)
Lemma grid_third_pass (w w1 : Grid.world) :
  let w2 := Grid.performAll w1 (Grid.runEffects w w1) in
  let w3 := Grid.performAll w2 (Grid.runEffects w1 w2) in
  Grid.performAll w3 (Grid.runEffects w2 w3) = w3.
Proof.
  intros w2 w3.
  assert (Hm12 : Grid.mode (Grid.cur w1) = Grid.mode (Grid.cur w2)).
  { destruct (decide (Grid.mode (Grid.cur w) = Grid.mode (Grid.cur w1))) as [He|Hne].
    - symmetry. apply (grid_pass_mode_same w w1 He).
    - destruct (grid_pass_mode_changed w w1 Hne) as [Hc _].
      fold w2 in Hc. by rewrite Hc. }
  destruct (grid_pass_mode_same w1 w2 Hm12) as (Hr & Hm & Hb & Hx & Hw1 & Hw2).
  fold w3 in Hr, Hm, Hb, Hx, Hw1, Hw2.
  apply grid_pass_idle; try done.
  destruct (decide (Grid.boardRef w1 = Grid.boardRef w2)) as [He|Hne].
  - symmetry. by apply Hw1.
  - rewrite (Hw2 Hne).
    destruct (decide (Grid.mode (Grid.cur w) = Grid.mode (Grid.cur w1))) as [He'|Hne'].
    + exfalso. apply Hne. symmetry. apply (grid_pass_mode_same w w1 He').
    + destruct (grid_pass_mode_changed w w1 Hne') as [Hc _].
      fold w2 in Hc. by rewrite Hc.
Qed.

(** Four renders are enough: more fuel changes nothing. *)
Lemma grid_flush_enough (k : nat) (prev now : Grid.world) :
  Grid.flush (4 + k) prev now = Grid.flush 4 prev now.
Proof.
  cbn [Nat.add Grid.flush]. destruct (Grid.sameRender prev now); [done|].
  set (w2 := Grid.performAll now _).
  destruct (Grid.sameRender now w2); [done|].
  set (w3 := Grid.performAll w2 _).
  destruct (Grid.sameRender w2 w3); [done|].
  pose proof (grid_third_pass prev now) as H. cbn zeta in H.
  fold w2 in H. fold w3 in H. rewrite H.
  rewrite grid_sameRender_refl. by destruct k.
Qed.

(** A batch that replaces the board and keeps the mode: the state once
    the renders have settled. *)
Lemma grid_deliver_board (acts : list Grid.action) (w : Grid.world) :
  let w1 := Grid.performAll w acts in
  Grid.boardRef w <> Grid.boardRef w1 ->
  Grid.mode (Grid.cur w) = Grid.mode (Grid.cur w1) ->
  let w' := Grid.deliver acts w in
  Grid.boardRef w' = Grid.boardRef w1
  /\ Grid.mode (Grid.cur w') = Grid.mode (Grid.cur w1)
  /\ Grid.board (Grid.cur w') = Grid.board (Grid.cur w1)
  /\ Grid.xIsNext (Grid.cur w') = Grid.xIsNext (Grid.cur w1)
  /\ Grid.winner (Grid.cur w') = Grid.calculateWinner (Grid.board (Grid.cur w1)).
Proof.
  intros w1 Hne Hmode w'. unfold w', Grid.deliver. fold w1.
  cbn [Grid.flush].
  destruct (Grid.sameRender w w1) eqn:H1.
  { by apply grid_sameRender_inv in H1 as [_ ?]. }
  pose proof (grid_pass_mode_same w w1 Hmode) as H2. cbn zeta in H2.
  set (w2 := Grid.performAll w1 _) in *.
  destruct H2 as (Hr2 & Hm2 & Hb2 & Hx2 & _ & Hw2). specialize (Hw2 Hne).
  destruct (Grid.sameRender w1 w2) eqn:H3; [done|].
  pose proof (grid_pass_mode_same w1 w2 (eq_sym Hm2)) as H4. cbn zeta in H4.
  pose proof (grid_third_pass w w1) as H5. cbn zeta in H5. fold w2 in H5.
  set (w3 := Grid.performAll w2 _) in *.
  destruct H4 as (Hr3 & Hm3 & Hb3 & Hx3 & Hw3 & _).
  specialize (Hw3 (eq_sym Hr2)).
  assert (Hgoal : Grid.boardRef w3 = Grid.boardRef w1
    /\ Grid.mode (Grid.cur w3) = Grid.mode (Grid.cur w1)
    /\ Grid.board (Grid.cur w3) = Grid.board (Grid.cur w1)
    /\ Grid.xIsNext (Grid.cur w3) = Grid.xIsNext (Grid.cur w1)
    /\ Grid.winner (Grid.cur w3) = Grid.calculateWinner (Grid.board (Grid.cur w1)))
    by (repeat split; congruence).
  destruct (Grid.sameRender w2 w3); [done|].
  rewrite H5, grid_sameRender_refl. done.
Qed.

(** The guards in front of a placement: those of the button and those
    of [handleSquareClick]. *)
Lemma grid_click_rejected (s : Grid.session) (i j : nat) :
  Grid.winner s <> Grid.WNull
  \/ Grid.cellAt (Grid.board s) i j <> None
  \/ (Grid.mode s = Grid.MODE_AI /\ Grid.xIsNext s = false) ->
  Grid.squareOnClick s i j = [].
Proof.
  unfold Grid.squareOnClick, Grid.disabled, Grid.handleSquareClick.
  intros [H|[H|[H1 H2]]].
  - destruct (Grid.winner s); done.
  - destruct (Grid.cellAt _ _ _); [|done]. cbn.
    by rewrite andb_false_r.
  - rewrite H2, (bool_decide_eq_true_2 _ H1). cbn.
    by rewrite orb_true_r.
Qed.

Lemma grid_click_accepted (s : Grid.session) (i j : nat) :
  Grid.squareOnClick s i j <> [] ->
  Grid.squareOnClick s i j
  = [Grid.PlaceMark i j (if Grid.xIsNext s then X else O); Grid.ToggleXIsNext]
  /\ Grid.winner s = Grid.WNull /\ Grid.cellAt (Grid.board s) i j = None
  /\ Grid.aiThinking s = false
  /\ (Grid.mode s = Grid.MODE_AI -> Grid.xIsNext s = true).
Proof.
  unfold Grid.squareOnClick, Grid.disabled, Grid.handleSquareClick.
  destruct (Grid.winner s); cbn; [|done|done].
  destruct (Grid.aiThinking s); cbn; [done|].
  destruct (Grid.cellAt _ _ _); cbn; [by rewrite andb_false_r|].
  destruct (Grid.xIsNext s); cbn.
  - rewrite andb_false_r. cbn. done.
  - case_bool_decide; cbn; [done|]. intros _. repeat split; done.
Qed.

Lemma grid_accepted_iff (s : Grid.session) (i j : nat) :
  Grid.accepted s i j = true <-> Grid.squareOnClick s i j <> [].
Proof. unfold Grid.accepted. by destruct (Grid.squareOnClick s i j). Qed.

(** The session after an accepted click. *)
Lemma grid_step_click (rnd : nat) (w : Grid.world) (i j : nat) :
  Grid.squareOnClick (Grid.cur w) i j <> [] ->
  let nb := Grid.gridSet (Grid.board (Grid.cur w)) i j
              (Some (if Grid.xIsNext (Grid.cur w) then X else O)) in
  let w' := Grid.step rnd w (Grid.CellClick i j) in
  Grid.mode (Grid.cur w') = Grid.mode (Grid.cur w)
  /\ Grid.board (Grid.cur w') = nb
  /\ Grid.xIsNext (Grid.cur w') = negb (Grid.xIsNext (Grid.cur w))
  /\ Grid.winner (Grid.cur w') = Grid.calculateWinner nb.
Proof.
  intros Hacc nb w'. unfold w'. cbn [Grid.step].
  destruct (grid_click_accepted _ _ _ Hacc) as [-> _].
  pose proof (grid_deliver_board
    [Grid.PlaceMark i j (if Grid.xIsNext (Grid.cur w) then X else O);
     Grid.ToggleXIsNext] w) as H.
  cbn in H. destruct H as (_ & Hm & Hb & Hx & Hw); [lia|done|]. done.
Qed.

Lemma grid_flush_unfold (n : nat) (prev now : Grid.world) :
  Grid.flush (S n) prev now
  = if Grid.sameRender prev now then now
    else Grid.flush n now (Grid.performAll now (Grid.runEffects prev now)).
Proof. reflexivity. Qed.

(** The commit that renders a fresh session on a new board array
    clears the timer and arms none. *)
Lemma grid_pass_fresh (prev : Grid.world) (m : Grid.Mode) (ref : nat)
    (p : option (list (list cell) * Grid.winnerVal)) :
  Grid.boardRef prev <> ref -> Grid.mode (Grid.cur prev) = m ->
  let now := Grid.mkWorld (Grid.fresh m) ref p in
  Grid.performAll now (Grid.runEffects prev now)
  = Grid.mkWorld (Grid.fresh m) ref None.
Proof.
  intros Href Hmode now. unfold now, Grid.runEffects, Grid.fresh.
  cbn [Grid.cur Grid.boardRef Grid.mode Grid.winner Grid.xIsNext].
  rewrite !(bool_decide_eq_false_2 (Grid.boardRef prev = ref)) by done.
  rewrite (bool_decide_eq_true_2 _ Hmode), !andb_false_r.
  unfold Grid.winnerEffect, Grid.aiEffect.
  cbn [Grid.board Grid.xIsNext Grid.winner Grid.mode].
  rewrite grid_empty_no_winner. by rewrite !andb_false_r.
Qed.

(** [resetGame]: a fresh session of the same mode, and no timer left. *)
Lemma grid_step_reset (rnd : nat) (w : Grid.world) :
  Grid.step rnd w Grid.NewGame
  = Grid.mkWorld (Grid.fresh (Grid.mode (Grid.cur w)))
      (S (Grid.boardRef w)) None.
Proof.
  cbn [Grid.step]. unfold Grid.deliver.
  assert (H1 : Grid.performAll w Grid.resetGame
               = Grid.mkWorld (Grid.fresh (Grid.mode (Grid.cur w)))
                   (S (Grid.boardRef w)) (Grid.pending w)) by done.
  rewrite H1, grid_flush_unfold.
  unfold Grid.sameRender at 1. cbn [Grid.boardRef].
  rewrite (bool_decide_eq_false_2 (Grid.boardRef w = S (Grid.boardRef w)))
    by lia.
  rewrite andb_false_r, grid_pass_fresh by (done || lia).
  by rewrite grid_flush_unfold, grid_sameRender_true.
Qed.

(** [setMode] with another mode: the effect on [[mode]] resets the
    game, and no timer is left. *)
Lemma grid_step_mode (rnd : nat) (w : Grid.world) (m : Grid.Mode) :
  m <> Grid.mode (Grid.cur w) ->
  Grid.step rnd w (Grid.ChooseMode m)
  = Grid.mkWorld (Grid.fresh m) (S (Grid.boardRef w)) None.
Proof.
  intros Hne. cbn [Grid.step]. unfold Grid.deliver.
  set (w1 := Grid.performAll w [Grid.SetMode m]).
  assert (Hm1 : Grid.mode (Grid.cur w1) = m) by done.
  assert (Hr1 : Grid.boardRef w1 = Grid.boardRef w) by done.
  rewrite grid_flush_unfold.
  destruct (Grid.sameRender w w1) eqn:Hs.
  { apply grid_sameRender_inv in Hs as [Hs _]. rewrite Hs in Hne. done. }
  destruct (grid_pass_mode_changed w w1) as [Hc2 Hr2]; [congruence|].
  set (w2 := Grid.performAll w1 _) in *.
  rewrite grid_flush_unfold.
  destruct (Grid.sameRender w1 w2) eqn:Hs2.
  { apply grid_sameRender_inv in Hs2 as [_ Hs2]. lia. }
  assert (Hw2 : w2 = Grid.mkWorld (Grid.fresh m) (S (Grid.boardRef w1))
                       (Grid.pending w2)).
  { destruct w2 as [c r p]. cbn in *. congruence. }
  rewrite Hw2 at 2 3. rewrite grid_pass_fresh by (done || lia).
  rewrite grid_flush_unfold. rewrite Hw2 at 1.
  rewrite grid_sameRender_true by done. by rewrite Hr1.
Qed.

(** [setMode] with the mode the component is in: React sees no change
    of state, renders nothing and runs no effect. *)
Lemma grid_step_mode_same (rnd : nat) (w : Grid.world) :
  Grid.step rnd w (Grid.ChooseMode (Grid.mode (Grid.cur w))) = w.
Proof.
  cbn [Grid.step]. unfold Grid.deliver. rewrite grid_flush_unfold.
  assert (H : Grid.performAll w [Grid.SetMode (Grid.mode (Grid.cur w))] = w).
  { by destruct w as [[md b x wn th] ref p]. }
  by rewrite H, grid_sameRender_refl.
Qed.

(** The opponent's callback, when it finds a square, gives the turn to
    "X". *)
Lemma grid_step_timer (rnd : nat) (w : Grid.world) (b : list (list cell))
    (wn : Grid.winnerVal) (i j : nat) :
  Grid.pending w = Some (b, wn) -> Grid.truthyW wn = false ->
  Grid.aiMove b rnd = Some (i, j) ->
  Grid.xIsNext (Grid.cur (Grid.step rnd w Grid.TimerFires)) = true.
Proof.
  intros Hp Hwn Hmove. cbn [Grid.step]. rewrite Hp.
  unfold Grid.timerCallback. rewrite Hmove, Hwn. cbn [negb app].
  pose proof (grid_deliver_board
    [Grid.PlaceMark i j O; Grid.SetXIsNext true; Grid.SetAiThinking false]
    (Grid.mkWorld (Grid.cur w) (Grid.boardRef w) None)) as H.
  cbn in H. destruct H as (_ & _ & _ & Hx & _); [lia|done|]. done.
Qed.

Lemma grid_placements_turn (es : list (Grid.event * nat)) (w w' : Grid.world) :
  Grid.placements w es = Some w' ->
  Grid.xIsNext (Grid.cur w')
  = Nat.iter (length es) negb (Grid.xIsNext (Grid.cur w)).
Proof.
  revert w. induction es as [|[e rnd] es IH]; intros w;
    cbn [Grid.placements length].
  - by intros [= ->].
  - destruct (Grid.legalPlacement w e rnd) eqn:Hlegal; [|discriminate].
    intros H. apply IH in H. rewrite H, <- iter_negb_shift. f_equal.
    destruct e as [i j| | |]; cbn [Grid.legalPlacement] in Hlegal;
      try discriminate.
    + apply grid_accepted_iff in Hlegal.
      apply (grid_step_click rnd w i j Hlegal).
    + apply andb_true_iff in Hlegal as [Hx Hp].
      apply negb_true_iff in Hx. rewrite Hx.
      destruct (Grid.pending w) as [[b wn]|] eqn:Hpend; [|discriminate].
      apply andb_true_iff in Hp as [Hwn Hmove].
      apply negb_true_iff in Hwn.
      destruct (Grid.aiMove b rnd) as [[i j]|] eqn:Hai; [|discriminate].
      by apply (grid_step_timer rnd w b wn i j).
Qed.


(** ** Copies and assignments in the store *)

Lemma untouched_app (h ext : Heap.heap) : Heap.untouched h (h ++ ext).
Proof. intros a Ha. by apply lookup_app_l. Qed.

Lemma flatAt_app (h ext : Heap.heap) (a : nat) :
  a < length h -> Heap.flatAt (h ++ ext) a = Heap.flatAt h a.
Proof.
  intros Ha. unfold Heap.flatAt, Heap.readCells. cbn [fst].
  by rewrite lookup_app_l.
Qed.

Lemma flatAt_new (h ext : Heap.heap) (l : list cell) :
  Heap.flatAt (h ++ Heap.Cells l :: ext) (length h) = l.
Proof.
  unfold Heap.flatAt, Heap.readCells. cbn [fst].
  by rewrite list_lookup_middle.
Qed.

Lemma bind_run {A B : Type} (m : Heap.M A) (k : A -> Heap.M B) (h : Heap.heap) :
  (m ≫= k) h = let (x, h') := m h in k x h'.
Proof. reflexivity. Qed.

Lemma slice_run (a : nat) (h : Heap.heap) :
  Heap.slice a h = (length h, h ++ [Heap.Cells (Heap.flatAt h a)]).
Proof. reflexivity. Qed.

(** An assignment into the array allocated last. *)
Lemma writeCell_last (h : Heap.heap) (l : list cell) (i : nat) (v : cell) :
  Heap.writeCell (length h) i v (h ++ [Heap.Cells l])
  = (tt, h ++ [Heap.Cells (jsSet l i v)]).
Proof.
  unfold Heap.writeCell. f_equal.
  rewrite <- (Nat.add_0_r (length h)). by rewrite alter_app_r.
Qed.

Lemma readCells_run (a : nat) (h : Heap.heap) :
  Heap.readCells a h = (Heap.flatAt h a, h).
Proof. reflexivity. Qed.

(** A copy followed by an assignment into the copy: one new array. *)
Lemma placeOnCopy_spec (board idx : nat) (m : Mark) (h : Heap.heap) :
  Heap.placeOnCopy board idx m h
  = (length h, h ++ [Heap.Cells (jsSet (Heap.flatAt h board) idx (Some m))]).
Proof.
  unfold Heap.placeOnCopy.
  by rewrite bind_run, slice_run, bind_run, writeCell_last.
Qed.

(** A loop of [getAIMove] returns what [find] returns on the board
    value and only adds arrays to the store. *)
Lemma tryEach_spec (squares : nat) (m : Mark) (idxs : list nat) (h : Heap.heap) :
  squares < length h ->
  exists ext,
    Heap.tryEach squares m idxs h
    = (find (Flat.winsWith (Heap.flatAt h squares) m) idxs, h ++ ext).
Proof.
  intros Hsq. revert h Hsq. induction idxs as [|idx idxs IH]; intros h Hsq.
  - exists []. by rewrite app_nil_r.
  - cbn [Heap.tryEach find].
    rewrite bind_run, slice_run, bind_run, writeCell_last, bind_run,
      readCells_run, flatAt_new.
    unfold Flat.winsWith at 1.
    destruct (strictEq _ _).
    + eexists. reflexivity.
    + set (h1 := h ++ _).
      destruct (IH h1) as [ext Hext].
      { unfold h1. rewrite length_app. lia. }
      rewrite Hext. unfold h1 at 1. rewrite flatAt_app by done.
      exists ([Heap.Cells (jsSet (Heap.flatAt h squares) idx (Some m))] ++ ext).
      unfold h1. by rewrite app_assoc.
Qed.

Lemma heap_getAIMove_spec (squares rnd : nat) (h : Heap.heap) :
  squares < length h ->
  exists ext,
    Heap.getAIMove squares rnd h
    = (Flat.getAIMove (Heap.flatAt h squares) rnd, h ++ ext).
Proof.
  intros Hsq. unfold Heap.getAIMove, Flat.getAIMove.
  rewrite bind_run, readCells_run.
  set (sq := Heap.flatAt h squares).
  rewrite bind_run.
  destruct (tryEach_spec squares O (Flat.emptyIndices sq) h Hsq) as [e1 ->].
  fold sq. destruct (find (Flat.winsWith sq O) _) as [i1|].
  { by exists e1. }
  rewrite bind_run.
  destruct (tryEach_spec squares X (Flat.emptyIndices sq) (h ++ e1)) as [e2 ->].
  { rewrite length_app. lia. }
  rewrite flatAt_app by done. fold sq.
  exists (e1 ++ e2). rewrite app_assoc.
  by destruct (find (Flat.winsWith sq X) _).
Qed.

(** Every row is copied to a new array, in order. *)
Lemma copyRows_spec (rows : list nat) (h : Heap.heap) :
  Forall (fun r => r < length h) rows ->
  Heap.copyRows rows h
  = (seq (length h) (length rows),
     h ++ ((fun r => Heap.Cells (Heap.flatAt h r)) <$> rows)).
Proof.
  revert h. induction rows as [|r rows IH]; intros h Hrows.
  - cbn. by rewrite app_nil_r.
  - apply Forall_cons in Hrows as [Hr Hrows].
    cbn [Heap.copyRows].
    rewrite bind_run, slice_run, bind_run, IH.
    + rewrite length_app. cbn [length fmap list_fmap seq].
      rewrite Nat.add_1_r, <- app_assoc. cbn [app]. do 3 f_equal.
      apply list_fmap_ext. intros k r' Hr'.
      apply list_elem_of_lookup_2 in Hr'.
      rewrite Forall_forall in Hrows. rewrite flatAt_app; [done|].
      by apply Hrows.
    + eapply Forall_impl; [exact Hrows|]. intros r' Hr'. cbn in Hr'.
      rewrite length_app. lia.
Qed.

Lemma gridAt_app (h ext : Heap.heap) (a : nat) :
  a < length h ->
  Forall (fun r => r < length h) (fst (Heap.readRows a h)) ->
  Heap.gridAt (h ++ ext) a = Heap.gridAt h a.
Proof.
  intros Ha Hrows. unfold Heap.gridAt, Heap.readRows in *. cbn [fst] in *.
  rewrite lookup_app_l by done.
  apply list_fmap_ext. intros k r Hr.
  apply flatAt_app. rewrite Forall_forall in Hrows.
  by apply Hrows, list_elem_of_lookup_2 with k.
Qed.

(** The functional update of the grid variants: the new board lives in
    new arrays only, and holds the old board with one square written. *)
Lemma placeMark_spec (prev i j : nat) (m : Mark) (h : Heap.heap) :
  Forall (fun r => r < length h) (fst (Heap.readRows prev h)) ->
  exists next ext,
    Heap.placeMark prev i j m h = (next, h ++ ext)
    /\ length h <= next
    /\ Heap.gridAt (h ++ ext) next
       = Grid.gridSet (Heap.gridAt h prev) i j (Some m).
Proof.
  intros Hrows. unfold Heap.placeMark.
  rewrite bind_run.
  change (Heap.readRows prev h) with (fst (Heap.readRows prev h), h).
  cbv beta iota.
  set (rs := fst (Heap.readRows prev h)) in *.
  rewrite bind_run, copyRows_spec by done.
  set (copies := (fun r => Heap.Cells (Heap.flatAt h r)) <$> rs).
  set (rows' := seq (length h) (length rs)).
  rewrite bind_run. unfold Heap.alloc at 1.
  assert (Hlen : length copies = length rs) by apply length_fmap.
  set (f := fun o => match o with
                     | Heap.Cells l => Heap.Cells (jsSet l j (Some m))
                     | Heap.Rows l => Heap.Rows l
                     end).
  set (ext := (if decide (i < length rs) then alter f i copies else copies)
              ++ [Heap.Rows rows']).
  exists (length (h ++ copies)), ext.
  assert (Hrun : (_ ← match rows' !! i with
                      | Some r => Heap.writeCell r j (Some m)
                      | None => mret tt
                      end; mret (length (h ++ copies)))
                   ((h ++ copies) ++ [Heap.Rows rows'])
                 = (length (h ++ copies), h ++ ext)).
  { rewrite bind_run. unfold ext, rows'.
    destruct (decide (i < length rs)) as [Hi|Hi].
    - rewrite lookup_seq_lt by done. unfold Heap.writeCell. fold f.
      rewrite <- app_assoc, alter_app_r, alter_app_l by lia. done.
    - rewrite lookup_seq_ge by lia. by rewrite <- app_assoc. }
  split; [exact Hrun|]. split; [rewrite length_app; lia|].
  (* the rows of the new board *)
  assert (Hnext : fst (Heap.readRows (length (h ++ copies)) (h ++ ext)) = rows').
  { unfold Heap.readRows, ext. cbn [fst].
    rewrite length_app, lookup_app_r by lia.
    replace (length h + length copies - length h) with (length copies) by lia.
    destruct (decide (i < length rs)).
    - rewrite <- (length_alter f copies i) at 1.
      by rewrite list_lookup_middle.
    - by rewrite list_lookup_middle. }
  unfold Heap.gridAt. rewrite Hnext. fold rs.
  unfold Grid.gridSet. apply list_eq. intros k.
  rewrite list_lookup_fmap. unfold rows'.
  destruct (decide (k < length rs)) as [Hk|Hk].
  - rewrite lookup_seq_lt by done. cbn [fmap option_fmap option_map].
    destruct (lookup_lt_is_Some_2 rs k Hk) as [r Hr].
    assert (Hcopy : copies !! k = Some (Heap.Cells (Heap.flatAt h r))).
    { unfold copies. by rewrite list_lookup_fmap, Hr. }
    assert (Hat : Heap.flatAt (h ++ ext) (length h + k)
                  = if decide (i = k) then jsSet (Heap.flatAt h r) j (Some m)
                    else Heap.flatAt h r).
    { unfold Heap.flatAt, Heap.readCells, ext. cbn [fst].
      rewrite lookup_app_r by lia.
      replace (length h + k - length h) with k by lia.
      destruct (decide (i < length rs)) as [Hi|Hi].
      - rewrite lookup_app_l by (rewrite length_alter; lia).
        destruct (decide (i = k)) as [->|Hik].
        + by rewrite list_lookup_alter_eq, Hcopy.
        + by rewrite list_lookup_alter_ne, Hcopy.
      - rewrite lookup_app_l, Hcopy by lia.
        destruct (decide (i = k)); [lia|done]. }
    rewrite Hat.
    destruct ((Heap.flatAt h <$> rs) !! i) as [row|] eqn:Hrow.
    + rewrite list_lookup_fmap in Hrow.
      destruct (decide (i = k)) as [->|Hik].
      * rewrite list_lookup_insert_eq by (rewrite length_fmap; lia).
        rewrite Hr in Hrow. cbn in Hrow. by injection Hrow as <-.
      * rewrite list_lookup_insert_ne, list_lookup_fmap, Hr by done. done.
    + rewrite list_lookup_fmap, Hr. cbn.
      destruct (decide (i = k)) as [->|Hik]; [|done].
      rewrite list_lookup_fmap, Hr in Hrow. discriminate.
  - rewrite lookup_seq_ge by lia. cbn [fmap option_fmap option_map]. symmetry.
    destruct ((Heap.flatAt h <$> rs) !! i) as [row|] eqn:Hrow.
    + apply lookup_ge_None. rewrite length_insert, length_fmap. lia.
    + apply lookup_ge_None. rewrite length_fmap. lia.
Qed.


(** ** Timers of App.js *)

Lemma flat_flush_unfold (n rnd : nat) (prev now : Flat.world) :
  Flat.flush (S n) rnd prev now
  = if Flat.sameRender prev now then now
    else Flat.flush n rnd now (Flat.performAll now (Flat.runEffects rnd prev now)).
Proof. reflexivity. Qed.

(** While it is the turn of "X" the effects arm no timer, and nothing
    in the component ever removes one that is pending. *)
Lemma flat_pass_x_turn (rnd : nat) (prev now : Flat.world) :
  Flat.isXNext (Flat.cur now) = true ->
  let w := Flat.performAll now (Flat.runEffects rnd prev now) in
  Flat.timers w = Flat.timers now /\ Flat.isXNext (Flat.cur w) = true.
Proof.
  intros Hx. unfold Flat.runEffects, Flat.aiMoveEffect.
  rewrite Hx, andb_false_r. cbn [andb negb].
  rewrite gameEndEffect_cached. destruct (Flat.cached _) as [st wn].
  destruct now as [[md b x st0 wn0] ref ts]. cbn in Hx. subst x.
  destruct (bool_decide _), (_ && _); cbn; done.
Qed.

Lemma flat_flush_x_turn (n rnd : nat) (prev now : Flat.world) :
  Flat.isXNext (Flat.cur now) = true ->
  Flat.timers (Flat.flush n rnd prev now) = Flat.timers now.
Proof.
  revert prev now. induction n as [|n IH]; intros prev now Hx; [done|].
  rewrite flat_flush_unfold. destruct (Flat.sameRender prev now); [done|].
  destruct (flat_pass_x_turn rnd prev now Hx) as [Ht Hx'].
  rewrite IH by done. done.
Qed.

(** [handleReset] and [handleModeChange] cancel nothing. *)
Lemma flat_reset_keeps_timers (rnd : nat) (w : Flat.world) (m : Flat.Mode) :
  Flat.timers (Flat.step rnd w Flat.NewGame) = Flat.timers w
  /\ Flat.timers (Flat.step rnd w (Flat.SelectMode m)) = Flat.timers w.
Proof.
  unfold Flat.step, Flat.deliver. cbn [Flat.dispatch fst snd].
  split; rewrite flat_flush_x_turn; done.
Qed.

(** ** The search through the games against the opponent of App.js *)

Lemma draws_legal (sq : list cell) (rnd : nat) :
  In rnd (Flat.draws sq) -> Flat.legalDraw sq rnd.
Proof.
  unfold Flat.draws, Flat.legalDraw.
  assert (Hzero : In rnd [0] ->
            Flat.emptyIndices sq = [] \/ rnd < length (Flat.emptyIndices sq)).
  { intros [<-|[]]. destruct (Flat.emptyIndices sq); [by left|right; cbn; lia]. }
  destruct (find (Flat.winsWith sq O) _); [exact Hzero|].
  destruct (find (Flat.winsWith sq X) _); [exact Hzero|].
  case_bool_decide as H4; [exact Hzero|].
  destruct (Flat.emptyIndices sq) as [|e E] eqn:HE; [by left|].
  intros H. right. apply list_elem_of_In, elem_of_seq in H. lia.
Qed.

Lemma holdsb_sound (fuel : nat) (w : Flat.world) :
  Flat.holdsb fuel w = true -> Flat.Holds w.
Proof.
  revert w. induction fuel as [|fuel IH]; intros w; [discriminate|].
  cbn [Flat.holdsb]. case_bool_decide as Hst.
  - intros H. apply Flat.Holds_turn; [done|].
    intros idx Hidx Hempty.
    rewrite forallb_forall in H. specialize (H idx).
    rewrite Hempty in H. cbn [truthy] in H.
    destruct (existsb_exists
      (fun rnd =>
         negb (Flat.humanWon (Flat.cur (Flat.step rnd w (Flat.Click idx))))
         && Flat.holdsb fuel
              (Flat.fireAll (Flat.step rnd w (Flat.Click idx))))
      (Flat.draws (jsSet (Flat.board (Flat.cur w)) idx (Some X))))
      as [Hex _].
    destruct Hex as (rnd & Hin & Hrnd).
    { apply H, in_seq. lia. }
    apply andb_true_iff in Hrnd as [Hnot Hrnd]. apply negb_true_iff in Hnot.
    exists rnd. split; [by apply draws_legal|]. split; [done|by apply IH].
  - intros H. apply Flat.Holds_over; [done|].
    by apply negb_true_iff in H.
Qed.


(** ** More on the component of App.js *)

(** An event whose handler replaces the board: the world after it is
    the world after the first commit. *)
Lemma flat_step_exact (rnd : nat) (w : Flat.world) (e : Flat.event) :
  let w0 := snd (Flat.dispatch w e) in
  let w1 := Flat.performAll w0 (fst (Flat.dispatch w e)) in
  Flat.boardRef w0 <> Flat.boardRef w1 ->
  Flat.step rnd w e = Flat.performAll w1 (Flat.runEffects rnd w0 w1).
Proof.
  intros w0 w1 Href. unfold Flat.step, Flat.deliver. fold w0. fold w1.
  rewrite flat_flush_unfold.
  destruct (Flat.sameRender w0 w1) eqn:Hs.
  { by apply flat_sameRender_boardRef in Hs. }
  rewrite flat_flush_unfold.
  destruct (Flat.sameRender w1 _); [done|].
  rewrite flat_flush_unfold.
  pose proof (flat_second_commit_idle rnd w e) as Hidle. cbn zeta in Hidle.
  fold w0 in Hidle. fold w1 in Hidle. rewrite Hidle.
  cbn [Flat.performAll foldl]. by rewrite flat_sameRender_refl.
Qed.

(** An event whose handler calls no setter changes nothing. *)
Lemma flat_step_idle (rnd : nat) (w : Flat.world) (e : Flat.event) :
  fst (Flat.dispatch w e) = [] -> Flat.step rnd w e = w.
Proof.
  intros H. unfold Flat.step. rewrite H, flat_deliver_nil.
  destruct e as [idx| |m|]; try done.
  cbn [Flat.dispatch] in *. by destruct (Flat.timers w).
Qed.

(** Every event either calls no setter or replaces the board. *)
Lemma flat_dispatch_cases (w : Flat.world) (e : Flat.event) :
  let w0 := snd (Flat.dispatch w e) in
  let w1 := Flat.performAll w0 (fst (Flat.dispatch w e)) in
  fst (Flat.dispatch w e) = [] \/ Flat.boardRef w0 <> Flat.boardRef w1.
Proof.
  destruct e as [idx| |m|]; cbn [Flat.dispatch fst snd].
  - destruct (decide (Flat.handleSquareClick (Flat.cur w) idx = [])) as [H|H];
      [by left|right]. rewrite (flat_click_accepted _ _ H). cbn. lia.
  - right. cbn. lia.
  - right. cbn. lia.
  - destruct (Flat.timers w); [by left|right]. cbn. lia.
Qed.

(** The session of App.js stays settled: after every event [status]
    and [winner] are the evaluation of the board. *)
Lemma flat_settled_step (rnd : nat) (w : Flat.world) (e : Flat.event) :
  flatSettled (Flat.cur w) -> flatSettled (Flat.cur (Flat.step rnd w e)).
Proof.
  intros Hw. destruct (flat_dispatch_cases w e) as [Hnil|Href].
  - by rewrite flat_step_idle.
  - pose proof (flat_deliver_board rnd (fst (Flat.dispatch w e))
                  (snd (Flat.dispatch w e)) Href) as H.
    cbn zeta in H. destruct H as (_ & _ & Hb & _ & Hs).
    unfold flatSettled, Flat.step. by rewrite Hs, Hb.
Qed.

(** The timers after one commit: those there were, and one more when
    the opponent effect armed it. *)
Lemma flat_pass_timers (rnd : nat) (prev now : Flat.world) :
  Flat.boardRef prev <> Flat.boardRef now ->
  Flat.timers (Flat.performAll now (Flat.runEffects rnd prev now))
  = Flat.timers now
    ++ match Flat.aiMoveEffect (Flat.cur now) rnd with
       | [Flat.SetTimeout nb] => [nb]
       | _ => []
       end.
Proof.
  intros Hne. unfold Flat.runEffects.
  rewrite (bool_decide_eq_false_2 _ Hne). cbn [andb].
  rewrite gameEndEffect_cached. destruct (Flat.cached _) as [st wn].
  destruct (aiMoveEffect_cases (Flat.cur now) rnd) as [->|[nb ->]];
    destruct now as [[md b x st0 wn0] ref ts]; cbn; by rewrite ?app_nil_r.
Qed.

(** With two players on one screen no click and no reset arms a
    timer. *)
Lemma flat_two_players_no_timer (rnd : nat) (w : Flat.world) (idx : nat) :
  Flat.mode (Flat.cur w) = Flat.ModeTwo ->
  Flat.timers (Flat.step rnd w (Flat.Click idx)) = Flat.timers w
  /\ Flat.timers (Flat.step rnd w Flat.NewGame) = Flat.timers w.
Proof.
  intros Hmode. split; [|apply (flat_reset_keeps_timers rnd w Flat.ModeTwo)].
  destruct (decide (Flat.handleSquareClick (Flat.cur w) idx = [])) as [H|H].
  { by rewrite flat_step_idle. }
  rewrite flat_step_exact;
    cbn [Flat.dispatch fst snd]; rewrite (flat_click_accepted _ _ H);
    [|cbn; lia].
  rewrite flat_pass_timers by (cbn; lia).
  destruct w as [[md b x st wn] ref ts]. cbn in *. subst.
  unfold Flat.aiMoveEffect. cbn. by rewrite app_nil_r.
Qed.


(** ** More on the component of the grid variants *)

(** The commit that renders a new board in the same mode. *)
Lemma grid_pass_board_exact (prev now : Grid.world) :
  Grid.mode (Grid.cur prev) = Grid.mode (Grid.cur now) ->
  Grid.boardRef prev <> Grid.boardRef now ->
  let s := Grid.cur now in
  let res := Grid.calculateWinner (Grid.board s) in
  let armed := bool_decide (Grid.mode s = Grid.MODE_AI)
               && negb (Grid.truthyW (Grid.winner s))
               && negb (Grid.xIsNext s) in
  Grid.performAll now (Grid.runEffects prev now)
  = Grid.mkWorld
      (Grid.mkSession (Grid.mode s) (Grid.board s) (Grid.xIsNext s) res
         (if armed then true
          else if Grid.truthyW res then false else Grid.aiThinking s))
      (Grid.boardRef now)
      (if armed then Some (Grid.board s, Grid.winner s) else None).
Proof.
  intros Hmode Href. destruct prev as [[md0 b0 x0 wn0 th0] ref0 p0].
  destruct now as [[md b x wn th] ref p]. cbn in Hmode, Href. subst md0.
  cbn zeta.
  cbn [Grid.cur Grid.boardRef Grid.mode Grid.board Grid.xIsNext Grid.winner
       Grid.aiThinking].
  unfold Grid.runEffects, Grid.winnerEffect, Grid.aiEffect, Grid.resetGame.
  cbn [Grid.cur Grid.boardRef Grid.pending Grid.mode Grid.board Grid.xIsNext
       Grid.winner Grid.aiThinking].
  generalize (Grid.calculateWinner b). intros res.
  rewrite (bool_decide_eq_true_2 (md = md)) by done.
  rewrite !(bool_decide_eq_false_2 (ref0 = ref)) by done.
  rewrite !andb_false_r.
  destruct res as [|m|], md, wn as [|m'|], x; cbn; reflexivity.
Qed.

(** The commit after a render in which only [winner] (and perhaps
    [aiThinking]) changed. *)
Lemma grid_pass_winner_exact (prev now : Grid.world) :
  Grid.mode (Grid.cur prev) = Grid.mode (Grid.cur now) ->
  Grid.boardRef prev = Grid.boardRef now ->
  Grid.winner (Grid.cur prev) <> Grid.winner (Grid.cur now) ->
  let s := Grid.cur now in
  let armed := bool_decide (Grid.mode s = Grid.MODE_AI)
               && negb (Grid.truthyW (Grid.winner s))
               && negb (Grid.xIsNext s) in
  Grid.performAll now (Grid.runEffects prev now)
  = Grid.mkWorld
      (Grid.mkSession (Grid.mode s) (Grid.board s) (Grid.xIsNext s)
         (Grid.winner s) (if armed then true else Grid.aiThinking s))
      (Grid.boardRef now)
      (if armed then Some (Grid.board s, Grid.winner s) else None).
Proof.
  intros Hmode Href Hwn. destruct prev as [[md0 b0 x0 wn0 th0] ref0 p0].
  destruct now as [[md b x wn th] ref p]. cbn in Hmode, Href, Hwn.
  subst md0 ref0. cbn zeta.
  cbn [Grid.cur Grid.boardRef Grid.mode Grid.board Grid.xIsNext Grid.winner
       Grid.aiThinking].
  unfold Grid.runEffects, Grid.winnerEffect, Grid.aiEffect, Grid.resetGame.
  cbn [Grid.cur Grid.boardRef Grid.pending Grid.mode Grid.board Grid.xIsNext
       Grid.winner Grid.aiThinking].
  rewrite (bool_decide_eq_true_2 (md = md)) by done.
  rewrite !(bool_decide_eq_true_2 (ref = ref)) by done.
  rewrite (bool_decide_eq_false_2 (wn0 = wn)) by done.
  cbn [andb].
  destruct md, wn as [|m'|], x; cbn; reflexivity.
Qed.

(** A batch that replaces the board and keeps the mode: the whole
    world once the renders have settled. *)
Lemma grid_deliver_board_exact (acts : list Grid.action) (w : Grid.world) :
  let w1 := Grid.performAll w acts in
  Grid.boardRef w <> Grid.boardRef w1 ->
  Grid.mode (Grid.cur w) = Grid.mode (Grid.cur w1) ->
  let s := Grid.cur w1 in
  let res := Grid.calculateWinner (Grid.board s) in
  let armed1 := bool_decide (Grid.mode s = Grid.MODE_AI)
                && negb (Grid.truthyW (Grid.winner s))
                && negb (Grid.xIsNext s) in
  let armed2 := bool_decide (Grid.mode s = Grid.MODE_AI)
                && negb (Grid.truthyW res) && negb (Grid.xIsNext s) in
  Grid.deliver acts w
  = Grid.mkWorld
      (Grid.mkSession (Grid.mode s) (Grid.board s) (Grid.xIsNext s) res
         (if armed1 || armed2 then true
          else if Grid.truthyW res then false else Grid.aiThinking s))
      (Grid.boardRef w1)
      (if armed2 then Some (Grid.board s, res) else None).
Proof.
  intros w1 Href Hmode s res armed1 armed2.
  unfold Grid.deliver. fold w1.
  rewrite grid_flush_unfold.
  destruct (Grid.sameRender w w1) eqn:Hs.
  { by apply grid_sameRender_inv in Hs as [_ ?]. }
  pose proof (grid_third_pass w w1) as Hthird. cbn zeta in Hthird.
  pose proof (grid_pass_board_exact w w1 Hmode Href) as H2. cbn zeta in H2.
  fold s in H2. fold res in H2. fold armed1 in H2.
  set (w2 := Grid.performAll w1 (Grid.runEffects w w1)) in *.
  rewrite grid_flush_unfold.
  destruct (decide (res = Grid.winner s)) as [Hres|Hres].
  - (* the winner is what it was: the second commit runs no effect *)
    assert (Hpass : Grid.performAll w2 (Grid.runEffects w1 w2) = w2).
    { apply grid_pass_idle; rewrite H2; cbn; done. }
    assert (Hfinal : w2 = Grid.mkWorld
      (Grid.mkSession (Grid.mode s) (Grid.board s) (Grid.xIsNext s) res
         (if armed1 || armed2 then true
          else if Grid.truthyW res then false else Grid.aiThinking s))
      (Grid.boardRef w1)
      (if armed2 then Some (Grid.board s, res) else None)).
    { rewrite H2. unfold armed1, armed2. rewrite <- Hres.
      by rewrite orb_diag. }
    destruct (Grid.sameRender w1 w2); [exact Hfinal|].
    rewrite Hpass, grid_flush_unfold, grid_sameRender_refl. exact Hfinal.
  - destruct (Grid.sameRender w1 w2) eqn:Hs2.
    { apply grid_sameRender_inv in Hs2 as [Hc _]. rewrite H2 in Hc.
      exfalso. apply Hres. unfold s. rewrite Hc. done. }
    assert (H3 : Grid.performAll w2 (Grid.runEffects w1 w2)
      = Grid.mkWorld
          (Grid.mkSession (Grid.mode s) (Grid.board s) (Grid.xIsNext s) res
             (if armed1 || armed2 then true
              else if Grid.truthyW res then false else Grid.aiThinking s))
          (Grid.boardRef w1)
          (if armed2 then Some (Grid.board s, res) else None)).
    { assert (Hm2 : Grid.mode (Grid.cur w1) = Grid.mode (Grid.cur w2))
        by by rewrite H2.
      assert (Hr2 : Grid.boardRef w1 = Grid.boardRef w2) by by rewrite H2.
      assert (Hw2 : Grid.winner (Grid.cur w1) <> Grid.winner (Grid.cur w2)).
      { rewrite H2. cbn. intros Heq. apply Hres. by rewrite <- Heq. }
      rewrite (grid_pass_winner_exact w1 w2 Hm2 Hr2 Hw2). rewrite H2.
      cbn [Grid.cur Grid.boardRef Grid.mode Grid.board Grid.xIsNext
           Grid.winner Grid.aiThinking].
      fold armed2. destruct armed1, armed2; done. }
    set (w3 := Grid.performAll w2 (Grid.runEffects w1 w2)) in *.
    rewrite grid_flush_unfold.
    destruct (Grid.sameRender w2 w3); [exact H3|].
    rewrite Hthird, grid_flush_unfold, grid_sameRender_refl. exact H3.
Qed.

(** A batch that touches neither board, mode, turn nor winner is
    simply applied. *)
Lemma grid_deliver_quiet (acts : list Grid.action) (w : Grid.world) :
  let w1 := Grid.performAll w acts in
  Grid.boardRef w = Grid.boardRef w1 ->
  Grid.mode (Grid.cur w) = Grid.mode (Grid.cur w1) ->
  Grid.winner (Grid.cur w) = Grid.winner (Grid.cur w1) ->
  Grid.xIsNext (Grid.cur w) = Grid.xIsNext (Grid.cur w1) ->
  Grid.deliver acts w = w1.
Proof.
  intros w1 Href Hmode Hwn Hx. unfold Grid.deliver. fold w1.
  rewrite grid_flush_unfold. destruct (Grid.sameRender w w1); [done|].
  rewrite grid_pass_idle by done.
  by rewrite grid_flush_unfold, grid_sameRender_refl.
Qed.


(** The world after an accepted click, in full. *)
Lemma grid_step_click_exact (rnd : nat) (w : Grid.world) (i j : nat) :
  Grid.squareOnClick (Grid.cur w) i j <> [] ->
  let s := Grid.cur w in
  let nb := Grid.gridSet (Grid.board s) i j
              (Some (if Grid.xIsNext s then X else O)) in
  let res := Grid.calculateWinner nb in
  let ai := bool_decide (Grid.mode s = Grid.MODE_AI) in
  Grid.step rnd w (Grid.CellClick i j)
  = Grid.mkWorld
      (Grid.mkSession (Grid.mode s) nb (negb (Grid.xIsNext s)) res
         (if ai then true else false))
      (S (Grid.boardRef w))
      (if ai && negb (Grid.truthyW res) then Some (nb, res) else None).
Proof.
  intros Hacc s nb res ai. cbn [Grid.step].
  destruct (grid_click_accepted _ _ _ Hacc) as (-> & Hwn & _ & Hth & Hx).
  rewrite grid_deliver_board_exact; [|cbn; lia|done].
  destruct w as [[md b x wn th] ref p]. cbn in *. subst wn th.
  fold nb. fold res. unfold ai. cbn.
  destruct md; cbn.
  - by destruct (Grid.truthyW res).
  - rewrite (Hx eq_refl). cbn. by destruct (Grid.truthyW res).
Qed.

(** The world after the timer has fired, in full. *)
Lemma grid_step_timer_exact (rnd : nat) (w : Grid.world)
    (b : list (list cell)) (wn : Grid.winnerVal) :
  Grid.pending w = Some (b, wn) ->
  let s := Grid.cur w in
  Grid.step rnd w Grid.TimerFires
  = match Grid.aiMove b rnd with
    | Some (i, j) =>
        if negb (Grid.truthyW wn) then
          let nb := Grid.gridSet (Grid.board s) i j (Some O) in
          Grid.mkWorld
            (Grid.mkSession (Grid.mode s) nb true (Grid.calculateWinner nb) false)
            (S (Grid.boardRef w)) None
        else
          Grid.mkWorld
            (Grid.mkSession (Grid.mode s) (Grid.board s) (Grid.xIsNext s)
               (Grid.winner s) false)
            (Grid.boardRef w) None
    | None =>
        Grid.mkWorld
          (Grid.mkSession (Grid.mode s) (Grid.board s) (Grid.xIsNext s)
             (Grid.winner s) false)
          (Grid.boardRef w) None
    end.
Proof.
  intros Hp s. cbn [Grid.step]. rewrite Hp. unfold Grid.timerCallback.
  destruct (Grid.aiMove b rnd) as [[i j]|];
    [destruct (negb (Grid.truthyW wn))|]; cbn [app].
  - rewrite grid_deliver_board_exact; [|cbn; lia|done].
    destruct w as [[md b0 x wn0 th] ref p]. cbn.
    rewrite !andb_false_r. cbn. by destruct (Grid.truthyW _).
  - by rewrite grid_deliver_quiet.
  - by rewrite grid_deliver_quiet.
Qed.

(** The session of the grid variants stays settled: after every event
    [winner] is what [calculateWinner] says of the board. *)
Lemma grid_settled_step (rnd : nat) (w : Grid.world) (e : Grid.event) :
  gridSettled (Grid.cur w) -> gridSettled (Grid.cur (Grid.step rnd w e)).
Proof.
  intros Hw. unfold gridSettled in *. destruct e as [i j| |m|].
  - destruct (decide (Grid.squareOnClick (Grid.cur w) i j = [])) as [H|H].
    + cbn [Grid.step]. by rewrite H, grid_deliver_nil.
    + by rewrite grid_step_click_exact.
  - by rewrite grid_step_reset.
  - destruct (decide (m = Grid.mode (Grid.cur w))) as [->|Hne].
    + by rewrite grid_step_mode_same.
    + by rewrite grid_step_mode.
  - destruct (Grid.pending w) as [[b wn]|] eqn:Hp.
    + rewrite (grid_step_timer_exact rnd w b wn Hp).
      destruct (Grid.aiMove b rnd) as [[i j]|];
        [destruct (negb (Grid.truthyW wn))|]; done.
    + cbn [Grid.step]. by rewrite Hp.
Qed.

(** A pending timer is never stale: it was armed for the board now
    shown, on the opponent's turn, in a game that goes on. *)
Lemma grid_timed_step (rnd : nat) (w : Grid.world) (e : Grid.event) :
  gridTimed w -> gridTimed (Grid.step rnd w e).
Proof.
  intros Hw. destruct e as [i j| |m|].
  - destruct (decide (Grid.squareOnClick (Grid.cur w) i j = [])) as [H|H].
    + cbn [Grid.step]. by rewrite H, grid_deliver_nil.
    + rewrite grid_step_click_exact by done. unfold gridTimed. cbn.
      case_bool_decide as Hmode; cbn; [|done].
      destruct (grid_click_accepted _ _ _ H) as (_ & _ & _ & _ & Hx).
      destruct (Grid.calculateWinner _) eqn:Hres; cbn; [|done|done].
      by rewrite (Hx Hmode).
  - by rewrite grid_step_reset.
  - destruct (decide (m = Grid.mode (Grid.cur w))) as [->|Hne].
    + by rewrite grid_step_mode_same.
    + by rewrite grid_step_mode.
  - destruct (Grid.pending w) as [[b wn]|] eqn:Hp.
    + rewrite (grid_step_timer_exact rnd w b wn Hp).
      destruct (Grid.aiMove b rnd) as [[i j]|];
        [destruct (negb (Grid.truthyW wn))|]; done.
    + cbn [Grid.step]. by rewrite Hp.
Qed.


(** ** Assignments inside an array *)

Lemma jsSet_inside (arr : list cell) (i : nat) (v : cell) :
  i < length arr -> jsSet arr i v = <[i := v]> arr.
Proof. intros H. unfold jsSet. by rewrite decide_True. Qed.

Lemma jsSet_length (arr : list cell) (i : nat) (v : cell) :
  i < length arr -> length (jsSet arr i v) = length arr.
Proof. intros H. rewrite jsSet_inside by done. apply length_insert. Qed.

(** Filling an empty square takes one entry off the list of empty
    squares. *)
Lemma emptyFrom_fill (k : nat) (sq : list cell) (i : nat) (m : Mark) :
  sq !! i = Some None ->
  S (length (emptyFrom k (<[i := Some m]> sq))) = length (emptyFrom k sq).
Proof.
  revert k i. induction sq as [|c sq IH]; intros k i Hi; [done|].
  destruct i as [|i]; cbn in Hi.
  - injection Hi as ->. cbn [insert list_insert].
    rewrite !emptyFrom_cons. cbn. done.
  - cbn [insert list_insert]. rewrite !emptyFrom_cons, !length_app.
    rewrite <- (IH (S k) i Hi). by destruct (truthy c).
Qed.

(** ** Clicks on the board of App.js *)

(** An accepted click on a square of the board found it empty and
    overwrites it. *)
Lemma flat_click_inside (rnd : nat) (w : Flat.world) (idx : nat) :
  Flat.accepted (Flat.cur w) idx = true ->
  idx < length (Flat.board (Flat.cur w)) ->
  Flat.board (Flat.cur w) !! idx = Some None
  /\ Flat.board (Flat.cur (Flat.step rnd w (Flat.Click idx)))
     = <[idx := Some (if Flat.isXNext (Flat.cur w) then X else O)]>
         (Flat.board (Flat.cur w)).
Proof.
  intros Hacc Hidx. apply flat_accepted_iff in Hacc. split.
  - destruct (lookup_lt_is_Some_2 _ _ Hidx) as [c Hc].
    destruct c as [m|]; [|exact Hc].
    exfalso. apply Hacc, flat_click_rejected. right; left.
    apply jsGet_Some in Hc. congruence.
  - destruct (flat_step_click rnd w idx Hacc) as (_ & Hb & _).
    rewrite Hb. by apply jsSet_inside.
Qed.

(** ** The shape of the board of App.js *)

Lemma aiMoveEffect_armed (s : Flat.session) (rnd : nat) (nb : list cell) :
  Flat.aiMoveEffect s rnd = [Flat.SetTimeout nb] ->
  length nb = length (Flat.board s).
Proof.
  unfold Flat.aiMoveEffect. destruct (_ && _); [|discriminate].
  destruct (Flat.getAIMove _ _) as [mv|] eqn:Hmv; [|discriminate].
  intros [= <-]. apply jsSet_length.
  apply getAIMove_empty in Hmv. by apply lookup_lt_Some in Hmv.
Qed.

(** ** The view of App.js *)

(** In a settled session the status line announces a winner only when
    that mark has a full line, a draw only on a full board without a
    full line, and otherwise names the player to move. *)
Lemma flat_status_text (s : Flat.session) :
  flatSettled s ->
  match FlatView.getStatusText s with
  | FlatView.WinsText who =>
      exists m, who = Some m /\ firstFull (Flat.board s) m
  | FlatView.DrawText =>
      ~ hasEmpty (Flat.board s) /\ noFullLine (Flat.board s)
  | FlatView.TurnText m =>
      hasEmpty (Flat.board s) /\ noFullLine (Flat.board s)
      /\ m = (if Flat.isXNext s then X else O)
  end.
Proof.
  unfold flatSettled, FlatView.getStatusText. intros Hs.
  destruct (flat_classifies (Flat.board s)) as (Hwin & _ & Hdraw & Hgo).
  destruct (Flat.evaluate (Flat.board s)) as [|m|] eqn:Hev;
    cbn in Hs; injection Hs as Hst Hwn; rewrite Hst, ?Hwn.
  - destruct Hgo as [Hgo _]. destruct (Hgo eq_refl). done.
  - exists m. split; [done|]. by apply Hwin.
  - destruct Hdraw as [Hdraw _]. by apply Hdraw.
Qed.

(** ** Both marks alike *)

Lemma jsGet_swap (sq : list cell) (a : nat) :
  jsGet (swapMarks sq) a = option_map other (jsGet sq a).
Proof.
  unfold jsGet, swapMarks. revert a.
  induction sq as [|c sq IH]; intros [|a]; try reflexivity. apply IH.
Qed.

Lemma strictEq_swap (c d : cell) :
  strictEq (option_map other c) (option_map other d) = strictEq c d.
Proof.
  unfold strictEq. destruct c as [[|]|], d as [[|]|]; done.
Qed.

Lemma scanLines_swap (sq : list cell) (ls : list (nat * nat * nat)) :
  Flat.scanLines (swapMarks sq) ls = option_map other (Flat.scanLines sq ls).
Proof.
  induction ls as [|[[a b] c] ls IH]; [done|].
  cbn [Flat.scanLines Flat.lineHit fst].
  rewrite !jsGet_swap, !strictEq_swap, IH.
  assert (Ht : truthy (option_map other (jsGet sq a)) = truthy (jsGet sq a))
    by by destruct (jsGet sq a).
  rewrite Ht. by destruct (_ && _ && _).
Qed.


(** ** Runs of events *)

Lemma flat_run_invariant (P : Flat.world -> Prop) :
  (forall rnd w e, P w -> P (Flat.step rnd w e)) ->
  forall es w, P w -> P (Flat.run w es).
Proof.
  intros Hstep es. unfold Flat.run.
  induction es as [|[e rnd] es IH]; intros w Hw; [done|].
  cbn [foldl fst snd]. by apply IH, Hstep.
Qed.

Lemma grid_run_invariant (P : Grid.world -> Prop) :
  (forall rnd w e, P w -> P (Grid.step rnd w e)) ->
  forall es w, P w -> P (Grid.run w es).
Proof.
  intros Hstep es. unfold Grid.run.
  induction es as [|[e rnd] es IH]; intros w Hw; [done|].
  cbn [foldl fst snd]. by apply IH, Hstep.
Qed.

(** ** Two players on the board of App.js *)

(** With two players the session stays in that mode and no timer is
    armed, whatever happens short of selecting the opponent. *)
Lemma flat_two_players_step (rnd : nat) (w : Flat.world) (e : Flat.event) :
  e <> Flat.SelectMode Flat.ModeAI ->
  Flat.mode (Flat.cur w) = Flat.ModeTwo /\ Flat.timers w = [] ->
  Flat.mode (Flat.cur (Flat.step rnd w e)) = Flat.ModeTwo
  /\ Flat.timers (Flat.step rnd w e) = [].
Proof.
  intros He [Hmode Ht]. destruct e as [idx| |m|].
  - destruct (flat_two_players_no_timer rnd w idx Hmode) as [Hc _].
    split; [|congruence].
    destruct (decide (Flat.handleSquareClick (Flat.cur w) idx = [])) as [H|H].
    + by rewrite flat_step_idle.
    + destruct (flat_step_click rnd w idx H) as (Hm & _). congruence.
  - destruct (flat_reset_keeps_timers rnd w Flat.ModeTwo) as [Hr _].
    split; [|congruence]. by rewrite flat_step_reset.
  - destruct m; [|done].
    destruct (flat_reset_keeps_timers rnd w Flat.ModeTwo) as [_ Hr].
    split; [|congruence]. by rewrite flat_step_mode.
  - rewrite flat_step_idle; [done|]. cbn [Flat.dispatch]. by rewrite Ht.
Qed.

(** ** The shape of the grid *)

Lemma wellFormed_row (g : list (list cell)) (i : nat) (row : list cell) :
  wellFormed g -> g !! i = Some row -> i < 3 /\ length row = 3.
Proof.
  intros [Hlen Hrows] Hrow. split.
  - apply lookup_lt_Some in Hrow. lia.
  - by apply (proj1 (Forall_lookup _ _) Hrows i row).
Qed.

Lemma wellFormed_rawAt (g : list (list cell)) (i j : nat) :
  wellFormed g -> i < 3 -> j < 3 ->
  Grid.rawAt g i j = Some (Grid.cellAt g i j).
Proof.
  intros Hg Hi Hj. unfold Grid.cellAt, Grid.rawAt.
  destruct (lookup_lt_is_Some_2 g i) as [row Hrow]; [destruct Hg; lia|].
  rewrite Hrow. cbn.
  destruct (wellFormed_row g i row Hg Hrow) as [_ Hlen].
  destruct (lookup_lt_is_Some_2 row j) as [c Hc]; [lia|]. by rewrite Hc.
Qed.

Lemma gridSet_wellFormed (g : list (list cell)) (i j : nat) (v : cell) :
  wellFormed g -> j < 3 -> wellFormed (Grid.gridSet g i j v).
Proof.
  intros Hg Hj. unfold Grid.gridSet.
  destruct (g !! i) as [row|] eqn:Hrow; [|done].
  destruct (wellFormed_row g i row Hg Hrow) as [_ Hlen].
  destruct Hg as [Hg Hrows]. split.
  - by rewrite length_insert.
  - apply Forall_insert; [done|]. rewrite jsSet_length; [done|lia].
Qed.

Lemma rawAt_gridSet (g : list (list cell)) (i j : nat) (v : cell) :
  wellFormed g -> i < 3 -> j < 3 ->
  Grid.rawAt (Grid.gridSet g i j v) i j = Some v
  /\ forall i' j', (i', j') <> (i, j) ->
       Grid.rawAt (Grid.gridSet g i j v) i' j' = Grid.rawAt g i' j'.
Proof.
  intros Hg Hi Hj. unfold Grid.gridSet, Grid.rawAt.
  destruct (lookup_lt_is_Some_2 g i) as [row Hrow]; [destruct Hg; lia|].
  rewrite Hrow.
  destruct (wellFormed_row g i row Hg Hrow) as [_ Hlen].
  assert (Hig : i < length g) by (destruct Hg; lia).
  rewrite jsSet_inside by lia. split.
  - rewrite list_lookup_insert_eq by done. cbn.
    apply list_lookup_insert_eq. lia.
  - intros i' j' Hne. destruct (decide (i' = i)) as [->|Hi'].
    + rewrite list_lookup_insert_eq by done. rewrite Hrow. cbn.
      apply list_lookup_insert_ne. congruence.
    + by rewrite list_lookup_insert_ne.
Qed.

Lemma emptyBoard_wellFormed : wellFormed Grid.emptyBoard.
Proof. split; [done|]. by repeat constructor. Qed.

(** ** The opponent at work *)

Lemma grid_thinking_step (rnd : nat) (w : Grid.world) (e : Grid.event) :
  gridThinking w -> gridThinking (Grid.step rnd w e).
Proof.
  intros Hw. destruct e as [i j| |m|].
  - destruct (decide (Grid.squareOnClick (Grid.cur w) i j = [])) as [H|H].
    + cbn [Grid.step]. by rewrite H, grid_deliver_nil.
    + rewrite grid_step_click_exact by done. unfold gridThinking. cbn.
      case_bool_decide as Hmode; cbn; [|done]. intros _.
      destruct (grid_click_accepted _ _ _ H) as (_ & _ & _ & _ & Hx).
      split; [done|]. split; [by rewrite (Hx Hmode)|].
      intros Hres. by rewrite Hres.
  - by rewrite grid_step_reset.
  - destruct (decide (m = Grid.mode (Grid.cur w))) as [->|Hne].
    + by rewrite grid_step_mode_same.
    + by rewrite grid_step_mode.
  - destruct (Grid.pending w) as [[b wn]|] eqn:Hp.
    + rewrite (grid_step_timer_exact rnd w b wn Hp).
      destruct (Grid.aiMove b rnd) as [[i j]|];
        [destruct (negb (Grid.truthyW wn))|]; done.
    + cbn [Grid.step]. by rewrite Hp.
Qed.


(** ** The timer of App.js in a game without reset *)

Lemma aiMoveEffect_form (s : Flat.session) (rnd : nat) (nb : list cell) :
  Flat.aiMoveEffect s rnd = [Flat.SetTimeout nb] ->
  exists mv, Flat.board s !! mv = Some None
    /\ nb = <[mv := Some O]> (Flat.board s).
Proof.
  unfold Flat.aiMoveEffect. destruct (_ && _); [|discriminate].
  destruct (Flat.getAIMove _ _) as [mv|] eqn:Hmv; [|discriminate].
  intros [= <-]. exists mv. apply getAIMove_empty in Hmv.
  split; [done|]. apply jsSet_inside. by apply lookup_lt_Some in Hmv.
Qed.

Lemma flat_timed_step (rnd : nat) (w : Flat.world) (e : Flat.event) :
  plays e -> flatTimed w -> flatTimed (Flat.step rnd w e).
Proof.
  intros He [Hmode Ht].
  destruct (flat_dispatch_cases w e) as [Hnil|Href].
  { by rewrite flat_step_idle. }
  pose proof (flat_deliver_board rnd (fst (Flat.dispatch w e))
                (snd (Flat.dispatch w e)) Href) as Hd.
  cbn zeta in Hd. destruct Hd as (_ & Hm & Hb & Hx & _).
  fold (Flat.step rnd w e) in Hm, Hb, Hx.
  pose proof (flat_pass_timers rnd _ _ Href) as Htimers.
  rewrite <- flat_step_exact in Htimers by done.
  unfold flatTimed. rewrite Hm, Hx, Hb, Htimers.
  clear Hm Hx Hb Htimers.
  destruct e as [idx| |m|]; try done; cbn [Flat.dispatch fst snd] in *.
  - destruct (decide (Flat.handleSquareClick (Flat.cur w) idx = [])) as [H|H].
    { rewrite H in Href. by cbn in Href. }
    assert (Hturn : Flat.isXNext (Flat.cur w) = true).
    { apply not_false_iff_true. intros Hn. apply H, flat_click_rejected.
      right; right. done. }
    assert (Hnone : Flat.timers w = []).
    { destruct (Flat.timers w) as [|nb [|nb' rest]]; [done| |done].
      destruct Ht as [Hf _]. congruence. }
    rewrite (flat_click_accepted _ _ H).
    set (w1 := Flat.performAll w _).
    assert (H1 : Flat.mode (Flat.cur w1) = Flat.ModeAI
                 /\ Flat.isXNext (Flat.cur w1) = false
                 /\ Flat.timers w1 = []).
    { unfold w1. cbn. by rewrite Hmode, Hturn, Hnone. }
    destruct H1 as (Hm1 & Hx1 & Ht1). rewrite Ht1. split; [done|].
    destruct (aiMoveEffect_cases (Flat.cur w1) rnd) as [Heff|[nb Heff]];
      rewrite Heff; [done|]. cbn [app].
    split; [done|]. by apply (aiMoveEffect_form _ rnd).
  - destruct (Flat.timers w) as [|nb [|nb' rest]] eqn:Htw; [done| |done].
    cbn [fst snd] in *.
    set (w1 := Flat.performAll _ _).
    assert (H1 : Flat.mode (Flat.cur w1) = Flat.ModeAI
                 /\ Flat.isXNext (Flat.cur w1) = true
                 /\ Flat.timers w1 = []).
    { unfold w1. cbn. by rewrite Hmode. }
    destruct H1 as (Hm1 & Hx1 & Ht1). rewrite Ht1. split; [done|].
    rewrite aiMoveEffect_idle by (by left). done.
Qed.

(** * The scenarios of the specification, run on the embedding *)

(** "X" takes the top row while "O" plays elsewhere: a win of "X". *)
Example scenario_top_row :
  Flat.status (Flat.cur (Flat.run (Flat.initial Flat.ModeTwo)
    [(Flat.Click 0, 0); (Flat.Click 3, 0); (Flat.Click 1, 0);
     (Flat.Click 4, 0); (Flat.Click 2, 0)])) = Flat.StWin
  /\ Flat.winner (Flat.cur (Flat.run (Flat.initial Flat.ModeTwo)
       [(Flat.Click 0, 0); (Flat.Click 3, 0); (Flat.Click 1, 0);
        (Flat.Click 4, 0); (Flat.Click 2, 0)])) = Some X
  /\ Grid.winner (Grid.cur (Grid.run (Grid.initial Grid.MODE_LOCAL)
       [(Grid.CellClick 0 0, 0); (Grid.CellClick 1 0, 0);
        (Grid.CellClick 0 1, 0); (Grid.CellClick 1 1, 0);
        (Grid.CellClick 0 2, 0)])) = Grid.WMark X.
Proof. vm_compute. repeat split; reflexivity. Qed.

(** A full board without a full line is a draw. *)
Example scenario_draw :
  Flat.evaluate fullBoard = Draw /\ Grid.evaluate (toGrid fullBoard) = Draw.
Proof. vm_compute. split; reflexivity. Qed.

(** Against the opponent the human takes the centre; when the timer
    has fired "O" holds one square that was empty and it is the turn of
    "X" again. *)
Example scenario_opponent_answers :
  Flat.board (Flat.cur (Flat.run (Flat.initial Flat.ModeAI)
    [(Flat.Click 4, 0); (Flat.TimerFires, 0)]))
  = [Some O; None; None; None; Some X; None; None; None; None]
  /\ Flat.isXNext (Flat.cur (Flat.run (Flat.initial Flat.ModeAI)
       [(Flat.Click 4, 0); (Flat.TimerFires, 0)])) = true
  /\ Grid.board (Grid.cur (Grid.run (Grid.initial Grid.MODE_AI)
       [(Grid.CellClick 1 1, 0); (Grid.TimerFires, 3)]))
     = [[None; None; None]; [Some O; Some X; None]; [None; None; None]]
  /\ Grid.xIsNext (Grid.cur (Grid.run (Grid.initial Grid.MODE_AI)
       [(Grid.CellClick 1 1, 0); (Grid.TimerFires, 3)])) = true.
Proof. vm_compute. repeat split; reflexivity. Qed.

(** * The claims of the specification *)

(** ** C1: what the outcome evaluator returns *)

(** C1, counterexample.  On the board [twoLines] the middle row is full
    of "O", and yet neither evaluator returns the win of "O": the first
    full line in the scan, the top row of "X", decides. *)
Lemma evaluate_first_line_decides :
  someFull twoLines O
  /\ Flat.evaluate twoLines <> Win O
  /\ Grid.evaluate (toGrid twoLines) <> Win O.
Proof.
  split; [|split; vm_compute; discriminate].
  exists (3, 4, 5). split; [|by repeat split].
  apply list_elem_of_In. cbn. tauto.
Qed.

(** C1 (amended).  For every board of nine squares each evaluator
    returns exactly one of InProgress, Win(mark) and Draw.  It returns
    Win(m) iff some line among the three rows, three columns and two
    diagonals is full of [m] and no line before it, in the order rows,
    columns, diagonals, is full of either mark; on a board where the
    other mark has no full line this is: iff some line is full of [m].
    It returns Draw iff the board has no empty square and no full line,
    and InProgress iff it has an empty square and no full line. *)
Theorem evaluate_classifies (squares : list cell) :
  length squares = 9 ->
  Classifies (Flat.evaluate squares) squares
  /\ Classifies (Grid.evaluate (toGrid squares)) squares.
Proof.
  intros Hlen. rewrite evaluators_agree by done.
  split; apply flat_classifies.
Qed.

Lemma evaluate_classifies_witness :
  length twoLines = 9
  /\ Classifies (Flat.evaluate twoLines) twoLines
  /\ Classifies (Grid.evaluate (toGrid twoLines)) twoLines.
Proof.
  split; [reflexivity|]. apply (evaluate_classifies twoLines). reflexivity.
Defined.

(** ** C2: rejected clicks *)

(** C2.  A click is rejected, and the component left exactly as it was,
    whenever the game is over, or the square is taken, or the opponent
    is to move in the mode against it; the session changes only when
    none of these holds.  In App.js the three guards stand in
    [handleSquareClick]; in the grid variants the guard on the turn
    stands in the [onClick] of the square's button, the only caller of
    [handleSquareClick].  The early [return] is the whole of the
    rejection: the handlers return nothing on either path. *)
Theorem click_rejection (rnd : nat) (w : Flat.world) (idx : nat)
    (gw : Grid.world) (i j : nat) :
  let rejects :=
    Flat.status (Flat.cur w) <> Flat.StOngoing
    \/ jsGet (Flat.board (Flat.cur w)) idx <> None
    \/ (Flat.mode (Flat.cur w) = Flat.ModeAI
        /\ Flat.isXNext (Flat.cur w) = false) in
  let grejects :=
    Grid.winner (Grid.cur gw) <> Grid.WNull
    \/ Grid.cellAt (Grid.board (Grid.cur gw)) i j <> None
    \/ (Grid.mode (Grid.cur gw) = Grid.MODE_AI
        /\ Grid.xIsNext (Grid.cur gw) = false) in
  (rejects <-> Flat.handleSquareClick (Flat.cur w) idx = [])
  /\ (rejects -> Flat.step rnd w (Flat.Click idx) = w)
  /\ (Flat.cur (Flat.step rnd w (Flat.Click idx)) <> Flat.cur w -> ~ rejects)
  /\ (~ rejects ->
      Flat.board (Flat.cur (Flat.step rnd w (Flat.Click idx)))
      = jsSet (Flat.board (Flat.cur w)) idx
          (Some (if Flat.isXNext (Flat.cur w) then X else O)))
  /\ (grejects -> Grid.squareOnClick (Grid.cur gw) i j = [])
  /\ (grejects -> Grid.step rnd gw (Grid.CellClick i j) = gw)
  /\ (Grid.cur (Grid.step rnd gw (Grid.CellClick i j)) <> Grid.cur gw ->
      ~ grejects).
Proof.
  intros rejects grejects.
  assert (H1 : rejects <-> Flat.handleSquareClick (Flat.cur w) idx = []).
  { symmetry. apply flat_click_rejected. }
  assert (H2 : rejects -> Flat.step rnd w (Flat.Click idx) = w).
  { intros H. apply H1 in H. unfold Flat.step. cbn [Flat.dispatch fst snd].
    rewrite H. apply flat_deliver_nil. }
  assert (G1 : grejects -> Grid.squareOnClick (Grid.cur gw) i j = []).
  { apply grid_click_rejected. }
  assert (G2 : grejects -> Grid.step rnd gw (Grid.CellClick i j) = gw).
  { intros H. apply G1 in H. cbn [Grid.step]. rewrite H.
    apply grid_deliver_nil. }
  split; [exact H1|]. split; [exact H2|]. split; [|split].
  - intros Hne Hr. apply Hne. by rewrite H2.
  - intros Hr.
    assert (Hacc : Flat.handleSquareClick (Flat.cur w) idx <> []).
    { intros H. apply Hr. by apply H1. }
    apply (flat_step_click rnd w idx Hacc).
  - split; [exact G1|]. split; [exact G2|].
    intros Hne Hr. apply Hne. by rewrite G2.
Qed.

(** ** C3: the turn *)

(** C3, counterexample.  Two players, "X" on 0 and 1, "O" on 3 and 4,
    "X" to move: the click on 2 is accepted and wins the game, and the
    turn has flipped to "O" all the same. *)
Lemma turn_flips_on_a_win :
  Flat.accepted (Flat.cur (Flat.run (Flat.initial Flat.ModeTwo) beforeTheWin)) 2
  = true
  /\ Flat.isXNext (Flat.cur (Flat.run (Flat.initial Flat.ModeTwo) beforeTheWin))
     = true
  /\ Flat.status (Flat.cur (Flat.step 0
       (Flat.run (Flat.initial Flat.ModeTwo) beforeTheWin) (Flat.Click 2)))
     = Flat.StWin
  /\ Flat.isXNext (Flat.cur (Flat.step 0
       (Flat.run (Flat.initial Flat.ModeTwo) beforeTheWin) (Flat.Click 2)))
     = false.
Proof. vm_compute. repeat split; reflexivity. Qed.

(** C3 (amended).  Every placement that is due - a click the handler
    accepts, or the opponent's deferred move on the opponent's turn -
    flips the turn, whatever outcome it produces; so after N
    consecutive such placements the turn has flipped exactly N times.
    In both variants. *)
Theorem turn_flips_each_placement (w w' : Flat.world)
    (es : list (Flat.event * nat)) (gw gw' : Grid.world)
    (ges : list (Grid.event * nat)) :
  Flat.placements w es = Some w' ->
  Grid.placements gw ges = Some gw' ->
  Flat.isXNext (Flat.cur w')
  = Nat.iter (length es) negb (Flat.isXNext (Flat.cur w))
  /\ Grid.xIsNext (Grid.cur gw')
     = Nat.iter (length ges) negb (Grid.xIsNext (Grid.cur gw)).
Proof.
  intros H G. split;
    [by apply flat_placements_turn|by apply grid_placements_turn].
Qed.

Lemma turn_flips_each_placement_witness :
  Flat.placements (Flat.initial Flat.ModeAI)
    [(Flat.Click 0, 0); (Flat.TimerFires, 0); (Flat.Click 8, 0)]
  = Some (Flat.run (Flat.initial Flat.ModeAI)
            [(Flat.Click 0, 0); (Flat.TimerFires, 0); (Flat.Click 8, 0)])
  /\ Grid.placements (Grid.initial Grid.MODE_AI)
       [(Grid.CellClick 0 0, 0); (Grid.TimerFires, 0); (Grid.CellClick 2 2, 0)]
     = Some (Grid.run (Grid.initial Grid.MODE_AI)
               [(Grid.CellClick 0 0, 0); (Grid.TimerFires, 0);
                (Grid.CellClick 2 2, 0)])
  /\ Flat.isXNext (Flat.cur (Flat.run (Flat.initial Flat.ModeAI)
       [(Flat.Click 0, 0); (Flat.TimerFires, 0); (Flat.Click 8, 0)]))
     = Nat.iter 3 negb true
  /\ Grid.xIsNext (Grid.cur (Grid.run (Grid.initial Grid.MODE_AI)
       [(Grid.CellClick 0 0, 0); (Grid.TimerFires, 0); (Grid.CellClick 2 2, 0)]))
     = Nat.iter 3 negb true.
Proof.
  assert (H : Flat.placements (Flat.initial Flat.ModeAI)
                [(Flat.Click 0, 0); (Flat.TimerFires, 0); (Flat.Click 8, 0)]
              = Some (Flat.run (Flat.initial Flat.ModeAI)
                        [(Flat.Click 0, 0); (Flat.TimerFires, 0);
                         (Flat.Click 8, 0)]))
    by (vm_compute; reflexivity).
  assert (G : Grid.placements (Grid.initial Grid.MODE_AI)
                [(Grid.CellClick 0 0, 0); (Grid.TimerFires, 0);
                 (Grid.CellClick 2 2, 0)]
              = Some (Grid.run (Grid.initial Grid.MODE_AI)
                        [(Grid.CellClick 0 0, 0); (Grid.TimerFires, 0);
                         (Grid.CellClick 2 2, 0)]))
    by (vm_compute; reflexivity).
  split; [exact H|]. split; [exact G|].
  exact (turn_flips_each_placement _ _ _ _ _ _ H G).
Defined.

(** ** C4: the order in which the opponent chooses *)

(** C4, counterexample.  On the grid [winInOne] square (0, 2) is empty
    and gives "O" the game, but [aiMove] of the grid variants, drawing
    the third of the five empty squares, returns (2, 0): this policy
    has the random step only. *)
Lemma random_policy_misses_a_win :
  Grid.rawAt winInOne 0 2 = Some None
  /\ Grid.evaluate (Grid.gridSet winInOne 0 2 (Some O)) = Win O
  /\ 2 < length (Grid.emptySquares winInOne)
  /\ Grid.aiMove winInOne 2 = Some (2, 0).
Proof. vm_compute. repeat split; reflexivity || lia. Qed.

(** C4 (amended).  [getAIMove] of App.js returns none iff the board has
    no empty square, and otherwise chooses in strict order: the first
    empty square, in index order, that makes "O" win; else the first
    empty square that would make "X" win; else the centre, square 4, if
    it is empty; else the empty square that the random draw selects
    among the empty squares listed in index order.  [aiMove] of the grid
    variants returns none iff the board has no empty square, and
    otherwise only makes the last step: the empty square that the draw
    selects among the empty squares listed row by row. *)
Theorem policy_priority (squares : list cell) (g : list (list cell))
    (rnd : nat) :
  Flat.legalDraw squares rnd ->
  Grid.legalDraw g rnd ->
  (Flat.getAIMove squares rnd = None <-> ~ hasEmpty squares)
  /\ (forall i, firstSuch (winningSquare squares O) i ->
        Flat.getAIMove squares rnd = Some i)
  /\ ((forall i, ~ winningSquare squares O i) ->
      forall i, firstSuch (winningSquare squares X) i ->
        Flat.getAIMove squares rnd = Some i)
  /\ ((forall i m, ~ winningSquare squares m i) ->
      squares !! 4 = Some None -> Flat.getAIMove squares rnd = Some 4)
  /\ ((forall i m, ~ winningSquare squares m i) ->
      squares !! 4 <> Some None ->
      Flat.getAIMove squares rnd = Flat.emptyIndices squares !! rnd)
  /\ (forall i, i ∈ Flat.emptyIndices squares <-> squares !! i = Some None)
  /\ (forall a b i j,
        Flat.emptyIndices squares !! a = Some i ->
        Flat.emptyIndices squares !! b = Some j -> a < b -> i < j)
  /\ (Grid.aiMove g rnd = None <->
      forall i j, i < 3 -> j < 3 -> Grid.rawAt g i j <> Some None)
  /\ (Grid.emptySquares g <> [] ->
      Grid.aiMove g rnd = Grid.emptySquares g !! rnd)
  /\ (forall i j, (i, j) ∈ Grid.emptySquares g <->
        i < 3 /\ j < 3 /\ Grid.rawAt g i j = Some None).
Proof.
  intros Hdraw Hgdraw. unfold Grid.legalDraw in Hgdraw.
  assert (Hlast : Flat.getAIMove squares rnd = None ->
                  Flat.emptyIndices squares = []).
  { unfold Flat.getAIMove.
    destruct (find (Flat.winsWith squares O) _); [discriminate|].
    destruct (find (Flat.winsWith squares X) _); [discriminate|].
    case_bool_decide as Hc; [discriminate|].
    destruct (Flat.emptyIndices squares) as [|e E] eqn:HE; [done|].
    intros H. apply lookup_ge_None in H.
    destruct Hdraw as [Hd|Hd]; [by rewrite HE in Hd|]. rewrite HE in Hd. lia. }
  split; [|split; [|split; [|split; [|split; [|split; [|split; [|split; [|split]]]]]]]].
  - split.
    + intros H. by apply emptyIndices_nil, Hlast.
    + intros H. apply emptyIndices_nil in H.
      unfold Flat.getAIMove. rewrite H. cbn [find].
      by rewrite bool_decide_eq_false_2 by apply not_elem_of_nil.
  - intros i Hi. apply find_winning in Hi.
    unfold Flat.getAIMove. by rewrite Hi.
  - intros HO i Hi. apply find_winning_None in HO. apply find_winning in Hi.
    unfold Flat.getAIMove. by rewrite HO, Hi.
  - intros Hnone H4.
    assert (HO : find (Flat.winsWith squares O) (Flat.emptyIndices squares) = None).
    { apply find_winning_None. intros i. apply Hnone. }
    assert (HX : find (Flat.winsWith squares X) (Flat.emptyIndices squares) = None).
    { apply find_winning_None. intros i. apply Hnone. }
    unfold Flat.getAIMove. rewrite HO, HX.
    by rewrite bool_decide_eq_true_2 by by apply emptyIndices_elem.
  - intros Hnone H4.
    assert (HO : find (Flat.winsWith squares O) (Flat.emptyIndices squares) = None).
    { apply find_winning_None. intros i. apply Hnone. }
    assert (HX : find (Flat.winsWith squares X) (Flat.emptyIndices squares) = None).
    { apply find_winning_None. intros i. apply Hnone. }
    unfold Flat.getAIMove. rewrite HO, HX.
    rewrite bool_decide_eq_false_2 by by rewrite emptyIndices_elem.
    by destruct (Flat.emptyIndices squares).
  - apply emptyIndices_elem.
  - intros a b i j. rewrite emptyIndices_from. apply emptyFrom_increasing.
  - unfold Grid.aiMove. split.
    + intros H i j Hi Hj Hraw.
      assert (Hin : (i, j) ∈ Grid.emptySquares g) by by apply emptySquares_elem.
      destruct (Grid.emptySquares g) as [|e E] eqn:HE;
        [by apply not_elem_of_nil in Hin|].
      apply lookup_ge_None in H. destruct Hgdraw as [Hd|Hd]; [done|lia].
    + intros H. destruct (Grid.emptySquares g) as [|[i j] E] eqn:HE; [done|].
      exfalso.
      assert (Hin : (i, j) ∈ Grid.emptySquares g) by (rewrite HE; by left).
      apply emptySquares_elem in Hin as (Hi & Hj & Hraw). by apply (H i j).
  - intros Hne. unfold Grid.aiMove. by destruct (Grid.emptySquares g).
  - intros i j. apply emptySquares_elem.
Qed.

Lemma policy_priority_witness :
  Flat.legalDraw afterCentre 1
  /\ Grid.legalDraw winInOne 1
  /\ Flat.getAIMove afterCentre 1 = Flat.emptyIndices afterCentre !! 1
  /\ Grid.aiMove winInOne 1 = Grid.emptySquares winInOne !! 1.
Proof.
  assert (Hd : Flat.legalDraw afterCentre 1) by (right; vm_compute; lia).
  assert (Hg : Grid.legalDraw winInOne 1) by (right; vm_compute; lia).
  split; [exact Hd|]. split; [exact Hg|].
  destruct (policy_priority afterCentre winInOne 1 Hd Hg)
    as (_ & _ & _ & _ & Hrandom & _ & _ & _ & Hgrid & _).
  split.
  - apply Hrandom; [|vm_compute; discriminate].
    intros i m [Hempty Hwin]. apply emptyIndices_elem in Hempty.
    change (Flat.emptyIndices afterCentre) with [1; 2; 3; 5; 6; 7; 8] in Hempty.
    destruct m; repeat (apply elem_of_cons in Hempty as [->|Hempty];
      [vm_compute in Hwin; discriminate|]); by apply not_elem_of_nil in Hempty.
  - apply Hgrid. vm_compute. discriminate.
Defined.

(** ** C9: where the move of the opponent lands *)

(** C9.  What the code does.  Whenever an opponent policy returns a
    move, the move lies inside the board and names a square that is
    empty in the board it was given; so the board the opponent effect
    of App.js hands to its timer, and the placement the timer callback
    of the grid variants issues, put "O" on a square that was empty in
    that board.  In the grid variants the move is also legal where it
    lands: in every session reached from a new game a pending timer
    holds the board shown, the game is in progress and it is the turn
    of "O", and its expiry fills a square that is empty on the board
    shown, or changes no square when the policy finds none; without a
    pending timer an expiry changes nothing.  In App.js nothing is
    looked at when the timer expires: its board replaces the board
    shown, whatever that is and whatever the status.  After "New Game"
    and a click on the centre the answer to the old game replaces the
    mark of the human on square 4 by "O"; and in [overturnedGame] the
    opponent moves after the human has won. *)
Theorem opponent_move_landing (squares : list cell) (g : list (list cell))
    (rnd : nat) (s : Flat.session) (wn : Grid.winnerVal) :
  (forall i, Flat.getAIMove squares rnd = Some i ->
     i < length squares /\ squares !! i = Some None)
  /\ (forall i j, Grid.aiMove g rnd = Some (i, j) ->
        i < 3 /\ j < 3 /\ Grid.rawAt g i j = Some None)
  /\ (forall nb, In (Flat.SetTimeout nb) (Flat.aiMoveEffect s rnd) ->
        exists i, Flat.board s !! i = Some None
                  /\ nb = <[i := Some O]> (Flat.board s))
  /\ (forall i j m, In (Grid.PlaceMark i j m) (Grid.timerCallback g wn rnd) ->
        m = O /\ i < 3 /\ j < 3 /\ Grid.rawAt g i j = Some None)
  /\ (forall gm es,
        let w := Grid.run (Grid.initial gm) es in
        let w' := Grid.step rnd w Grid.TimerFires in
        match Grid.pending w with
        | None => w' = w
        | Some (b, cw) =>
            b = Grid.board (Grid.cur w)
            /\ Grid.evaluate (Grid.board (Grid.cur w)) = InProgress
            /\ Grid.xIsNext (Grid.cur w) = false
            /\ match Grid.aiMove b rnd with
               | Some (i, j) =>
                   Grid.rawAt (Grid.board (Grid.cur w)) i j = Some None
                   /\ Grid.board (Grid.cur w')
                      = Grid.gridSet (Grid.board (Grid.cur w)) i j (Some O)
               | None => Grid.board (Grid.cur w') = Grid.board (Grid.cur w)
               end
        end)
  /\ (forall w nb rest, Flat.timers w = nb :: rest ->
        Flat.board (Flat.cur (Flat.step rnd w Flat.TimerFires)) = nb)
  /\ (let w := Flat.run (Flat.initial Flat.ModeAI)
                 [(Flat.Click 0, 0); (Flat.NewGame, 0); (Flat.Click 4, 0)] in
      Flat.board (Flat.cur w)
      = [None; None; None; None; Some X; None; None; None; None]
      /\ Flat.board (Flat.cur (Flat.step 0 w Flat.TimerFires))
         = [Some X; None; None; None; Some O; None; None; None; None])
  /\ (let w := Flat.run (Flat.initial Flat.ModeAI) overturnedGame in
      Flat.status (Flat.cur w) = Flat.StWin
      /\ Flat.winner (Flat.cur w) = Some X
      /\ Flat.board (Flat.cur w)
         = [Some X; None; Some O; Some O; Some O; None; Some X; Some X; Some X]
      /\ Flat.board (Flat.cur (Flat.step 0 w Flat.TimerFires))
         = [Some X; None; Some O; Some O; Some O; Some O; Some X; Some X; Some X]
      /\ Flat.winner (Flat.cur (Flat.step 0 w Flat.TimerFires)) = Some O).
Proof.
  assert (Hflat : forall sq i, Flat.getAIMove sq rnd = Some i ->
                    i < length sq /\ sq !! i = Some None).
  { intros sq i H. apply getAIMove_empty in H. split; [|done].
    by apply lookup_lt_Some in H. }
  split; [apply Hflat|]. split; [intros i j; apply aiMove_empty|].
  split; [|split; [|split; [|split; [|split]]]].
  - intros nb. unfold Flat.aiMoveEffect.
    destruct (_ && _); [|intros []].
    destruct (Flat.getAIMove (Flat.board s) rnd) as [i|] eqn:Hmove; [|intros []].
    intros [[= <-]|[]]. destruct (Hflat _ _ Hmove) as [Hlt Hempty].
    exists i. split; [done|]. unfold jsSet. by rewrite decide_True.
  - intros i j m. unfold Grid.timerCallback.
    destruct (Grid.aiMove g rnd) as [[i' j']|] eqn:Hmove.
    + destruct (negb (Grid.truthyW wn)); cbn.
      * intros [[= <- <- <-]|[[=]|[[=]|[]]]].
        split; [done|]. by apply (aiMove_empty g rnd).
      * intros [[=]|[]].
    + cbn. intros [[=]|[]].
  - intros gm es. cbn zeta. set (w := Grid.run (Grid.initial gm) es).
    assert (Hinv : gridTimed w /\ gridSettled (Grid.cur w)).
    { apply (grid_run_invariant
               (fun w0 => gridTimed w0 /\ gridSettled (Grid.cur w0))).
      - intros r w0 e [Ht Hs].
        split; [by apply grid_timed_step|by apply grid_settled_step].
      - split; [exact I|reflexivity]. }
    destruct Hinv as [Ht Hs]. unfold gridTimed in Ht.
    destruct (Grid.pending w) as [[b cw]|] eqn:Hp.
    + destruct Ht as (Hb & Hcw & Hwn & Hx & _).
      split; [exact Hb|]. split.
      { unfold Grid.evaluate. unfold gridSettled in Hs. by rewrite <- Hs, Hwn. }
      split; [exact Hx|].
      rewrite (grid_step_timer_exact rnd w b cw Hp).
      destruct (Grid.aiMove b rnd) as [[i j]|] eqn:Hmove; [|done].
      subst b cw. cbn.
      split; [|done]. by destruct (aiMove_empty _ _ _ _ Hmove) as (_ & _ & ?).
    + cbn [Grid.step]. by rewrite Hp.
  - intros w nb rest Hw. by destruct (flat_step_timer rnd w nb rest Hw).
  - vm_compute. split; reflexivity.
  - vm_compute. repeat split; reflexivity.
Qed.

(** ** C10: the two evaluators agree *)

(** C10.  On every board of nine squares the evaluator of App.js (the
    winner found by [calculateWinner], else the draw test of the effect
    that follows it) and the evaluator of the grid variants, applied to
    the same squares laid out row by row, return the same
    classification; boards with several full lines included. *)
Theorem evaluators_equal (squares : list cell) :
  length squares = 9 ->
  Grid.evaluate (toGrid squares) = Flat.evaluate squares
  /\ Grid.calculateWinner (toGrid squares)
     = match Flat.calculateWinner squares with
       | Some m => Grid.WMark m
       | None => if forallb truthy squares then Grid.WDraw else Grid.WNull
       end.
Proof.
  intros Hlen. pose proof (evaluators_agree squares Hlen) as H.
  split; [exact H|].
  unfold Grid.evaluate, Flat.evaluate in H.
  destruct (Grid.calculateWinner _), (Flat.calculateWinner squares);
    try destruct (forallb truthy squares); congruence.
Qed.

Lemma evaluators_equal_witness :
  length twoLines = 9
  /\ Grid.evaluate (toGrid twoLines) = Flat.evaluate twoLines
  /\ Grid.calculateWinner (toGrid twoLines)
     = match Flat.calculateWinner twoLines with
       | Some m => Grid.WMark m
       | None => if forallb truthy twoLines then Grid.WDraw else Grid.WNull
       end.
Proof.
  split; [reflexivity|]. apply (evaluators_equal twoLines). reflexivity.
Defined.

(** The same, from the side of the grid. *)
Lemma grid_evaluator_agrees (g : list (list cell)) :
  wellFormed g -> Grid.evaluate g = Flat.evaluate (concat g).
Proof.
  intros Hg. destruct (toGrid_concat g Hg) as [Hlen Hto].
  by rewrite <- (evaluators_agree _ Hlen), Hto.
Qed.

(** ** C5: a reset while the opponent's move is pending *)

(** C5.  What App.js does: in the mode against the opponent the human
    takes square 0, the opponent effect arms a timer for the board with
    "O" in the centre, and "New Game" is pressed before the timer
    expires.  The reset leaves the timer armed; when it fires, the
    stale board replaces the empty one.  No reset and no change of mode
    in App.js ever removes a pending timer.  The grid variants do what
    the specification asks: their opponent effect returns a clean-up
    that clears the timer, and after [resetGame] or a change of mode
    nothing is pending. *)
Theorem reset_leaves_the_move_pending :
  (Flat.timers (Flat.step 0 (Flat.initial Flat.ModeAI) (Flat.Click 0))
   = [ [Some X; None; None; None; Some O; None; None; None; None] ]
   /\ Flat.board (Flat.cur (Flat.run (Flat.initial Flat.ModeAI)
                    [(Flat.Click 0, 0); (Flat.NewGame, 0)]))
      = replicate 9 None
   /\ Flat.board (Flat.cur (Flat.run (Flat.initial Flat.ModeAI)
                    [(Flat.Click 0, 0); (Flat.NewGame, 0); (Flat.TimerFires, 0)]))
      = [Some X; None; None; None; Some O; None; None; None; None])
  /\ (forall rnd w m,
        Flat.timers (Flat.step rnd w Flat.NewGame) = Flat.timers w
        /\ Flat.timers (Flat.step rnd w (Flat.SelectMode m)) = Flat.timers w)
  /\ (forall rnd gw gm,
        Grid.pending (Grid.step rnd gw Grid.NewGame) = None
        /\ (gm <> Grid.mode (Grid.cur gw) ->
            Grid.pending (Grid.step rnd gw (Grid.ChooseMode gm)) = None)).
Proof.
  split; [vm_compute; repeat split; reflexivity|]. split.
  - intros rnd w m. apply flat_reset_keeps_timers.
  - intros rnd gw gm. split.
    + by rewrite grid_step_reset.
    + intros Hne. by rewrite grid_step_mode.
Qed.

(** ** C6: boards are copied, never written in place *)

(** C6.  Let [b1] be the address of a board in the store.  A placement
    of App.js (by the human in [handleSquareClick], by the opponent in
    its effect), the whole of [getAIMove] with its hypothetical
    placements, and a placement of the grid variants (the functional
    update used for both players) leave every array that existed
    before as it was; so [b1] still holds the board it held, and the
    board with the new mark lives at a new address. *)
Theorem boards_copy_on_write (h : Heap.heap) (b1 idx rnd i j : nat) (m : Mark) :
  b1 < length h ->
  Forall (fun r => r < length h) (fst (Heap.readRows b1 h)) ->
  (Heap.untouched h (snd (Heap.placeOnCopy b1 idx m h))
   /\ Heap.flatAt (snd (Heap.placeOnCopy b1 idx m h)) b1 = Heap.flatAt h b1
   /\ Heap.flatAt (snd (Heap.placeOnCopy b1 idx m h))
        (fst (Heap.placeOnCopy b1 idx m h))
      = jsSet (Heap.flatAt h b1) idx (Some m))
  /\ (Heap.untouched h (snd (Heap.getAIMove b1 rnd h))
      /\ Heap.flatAt (snd (Heap.getAIMove b1 rnd h)) b1 = Heap.flatAt h b1
      /\ fst (Heap.getAIMove b1 rnd h) = Flat.getAIMove (Heap.flatAt h b1) rnd)
  /\ (Heap.untouched h (snd (Heap.placeMark b1 i j m h))
      /\ Heap.gridAt (snd (Heap.placeMark b1 i j m h)) b1 = Heap.gridAt h b1
      /\ Heap.gridAt (snd (Heap.placeMark b1 i j m h))
           (fst (Heap.placeMark b1 i j m h))
         = Grid.gridSet (Heap.gridAt h b1) i j (Some m)).
Proof.
  intros Hb Hrows. split; [|split].
  - rewrite placeOnCopy_spec. cbn [fst snd].
    split; [apply untouched_app|]. split; [by apply flatAt_app|].
    apply flatAt_new.
  - destruct (heap_getAIMove_spec b1 rnd h Hb) as [ext ->]. cbn [fst snd].
    split; [apply untouched_app|]. split; [by apply flatAt_app|done].
  - destruct (placeMark_spec b1 i j m h Hrows) as (next & ext & -> & _ & Hnew).
    cbn [fst snd].
    split; [apply untouched_app|]. split; [by apply gridAt_app|done].
Qed.

Lemma boards_copy_on_write_witness :
  3 < length winInOneStore
  /\ Forall (fun r => r < length winInOneStore)
       (fst (Heap.readRows 3 winInOneStore))
  /\ Heap.gridAt (snd (Heap.placeMark 3 0 2 O winInOneStore)) 3 = winInOne
  /\ Heap.gridAt (snd (Heap.placeMark 3 0 2 O winInOneStore))
       (fst (Heap.placeMark 3 0 2 O winInOneStore))
     = Grid.gridSet winInOne 0 2 (Some O).
Proof.
  assert (H0 : 3 < length winInOneStore) by (cbn; lia).
  assert (H1 : Forall (fun r => r < length winInOneStore)
                 (fst (Heap.readRows 3 winInOneStore)))
    by (repeat constructor).
  split; [exact H0|]. split; [exact H1|].
  exact (proj2 (proj2 (proj2
    (boards_copy_on_write winInOneStore 3 0 0 0 2 O H0 H1)))).
Defined.

(** ** C7: reset and change of mode *)

(** C7.  What the code does.  Right after a reset the session is fresh
    in both variants, whatever it was: empty board, "X" to move, game
    in progress, mode kept; right after a change of mode it is the
    fresh session of the new mode.  In the grid variants nothing is
    left of the old game: no timer is pending, and the expiry of a
    timer changes nothing; but there the reset is an effect on
    [[mode]], so [setMode] with the mode already chosen resets nothing
    and the game in progress goes on.  In App.js a timer armed before
    the reset or the change of mode is still pending, and when it
    expires its board replaces the fresh one: after a click on square
    0 against the opponent and the choice of two players, the board in
    progress, with the answer of the opponent on it, is shown in the
    new mode. *)
Theorem mode_change_carries_the_board_over (rnd : nat) (w : Flat.world)
    (m : Flat.Mode) (gw : Grid.world) (gm : Grid.Mode) :
  (Flat.cur (Flat.step rnd w Flat.NewGame)
   = Flat.mkSession (Flat.mode (Flat.cur w)) (replicate 9 None) true
       Flat.StOngoing None
   /\ Flat.cur (Flat.step rnd w (Flat.SelectMode m))
      = Flat.mkSession m (replicate 9 None) true Flat.StOngoing None)
  /\ (Grid.step rnd gw Grid.NewGame
      = Grid.mkWorld
          (Grid.mkSession (Grid.mode (Grid.cur gw))
             (replicate 3 (replicate 3 None)) true Grid.WNull false)
          (S (Grid.boardRef gw)) None
      /\ Grid.step rnd gw (Grid.ChooseMode gm)
         = (if bool_decide (gm = Grid.mode (Grid.cur gw)) then gw
            else Grid.mkWorld
                   (Grid.mkSession gm (replicate 3 (replicate 3 None)) true
                      Grid.WNull false)
                   (S (Grid.boardRef gw)) None)
      /\ (forall rnd',
            Grid.step rnd' (Grid.step rnd gw Grid.NewGame) Grid.TimerFires
            = Grid.step rnd gw Grid.NewGame)
      /\ (gm <> Grid.mode (Grid.cur gw) ->
          forall rnd',
            Grid.step rnd' (Grid.step rnd gw (Grid.ChooseMode gm)) Grid.TimerFires
            = Grid.step rnd gw (Grid.ChooseMode gm)))
  /\ (forall nb rest rnd', Flat.timers w = nb :: rest ->
        (let w' := Flat.step rnd' (Flat.step rnd w (Flat.SelectMode m))
                     Flat.TimerFires in
         Flat.mode (Flat.cur w') = m /\ Flat.board (Flat.cur w') = nb)
        /\ (let w' := Flat.step rnd' (Flat.step rnd w Flat.NewGame)
                        Flat.TimerFires in
            Flat.mode (Flat.cur w') = Flat.mode (Flat.cur w)
            /\ Flat.board (Flat.cur w') = nb))
  /\ Flat.cur (Flat.run (Flat.initial Flat.ModeAI)
                 [(Flat.Click 0, 0); (Flat.SelectMode Flat.ModeTwo, 0);
                  (Flat.TimerFires, 0)])
     = Flat.mkSession Flat.ModeTwo
         [Some X; None; None; None; Some O; None; None; None; None]
         true Flat.StOngoing None
  /\ Grid.cur (Grid.run (Grid.initial Grid.MODE_AI)
                 [(Grid.CellClick 0 0, 0); (Grid.ChooseMode Grid.MODE_LOCAL, 0);
                  (Grid.TimerFires, 0)])
     = Grid.mkSession Grid.MODE_LOCAL (replicate 3 (replicate 3 None)) true
         Grid.WNull false.
Proof.
  assert (Hlands : forall r w0 nb rest, Flat.timers w0 = nb :: rest ->
            Flat.mode (Flat.cur (Flat.step r w0 Flat.TimerFires))
            = Flat.mode (Flat.cur w0)
            /\ Flat.board (Flat.cur (Flat.step r w0 Flat.TimerFires)) = nb).
  { intros r w0 nb rest Hw0.
    split; [|by destruct (flat_step_timer r w0 nb rest Hw0)].
    unfold Flat.step. cbn [Flat.dispatch]. rewrite Hw0. cbn [fst snd].
    pose proof (flat_deliver_board r (Flat.timerCallback nb)
                  (Flat.mkWorld (Flat.cur w0) (Flat.boardRef w0) rest)) as H.
    cbn zeta in H. destruct H as (_ & Hm & _); [cbn; lia|].
    rewrite Hm. done. }
  split; [split; [apply flat_step_reset|apply flat_step_mode]|].
  split; [|split; [|split]].
  - split; [apply grid_step_reset|]. split; [|split].
    + case_bool_decide as Hgm.
      * subst gm. apply grid_step_mode_same.
      * by apply grid_step_mode.
    + intros rnd'. by rewrite grid_step_reset.
    + intros Hne rnd'. by rewrite grid_step_mode.
  - intros nb rest rnd' Hw.
    destruct (flat_reset_keeps_timers rnd w m) as [Hreset Hmode].
    split; cbn zeta.
    + destruct (Hlands rnd' (Flat.step rnd w (Flat.SelectMode m)) nb rest)
        as [Hm Hb]; [congruence|].
      split; [|exact Hb]. by rewrite Hm, flat_step_mode.
    + destruct (Hlands rnd' (Flat.step rnd w Flat.NewGame) nb rest)
        as [Hm Hb]; [congruence|].
      split; [|exact Hb]. by rewrite Hm, flat_step_reset.
  - vm_compute. reflexivity.
  - vm_compute. reflexivity.
Qed.

(** ** C8: can the opponent lose? *)

(** C8, counterexample.  The game [forkGame] against the opponent of
    App.js, playing second with its heuristic: every draw is one the
    opponent can make, and the game ends with the left column full of
    "X" and the status on the victory of "X". *)
Lemma human_wins_by_a_fork :
  Flat.legalDraw [None; Some X; None; Some X; Some O; None; None; None; None] 2
  /\ Flat.board (Flat.cur (Flat.run (Flat.initial Flat.ModeAI) forkGame))
     = [Some X; Some X; Some O; Some X; Some O; Some O; Some X; Some O; None]
  /\ Flat.status (Flat.cur (Flat.run (Flat.initial Flat.ModeAI) forkGame))
     = Flat.StWin
  /\ Flat.winner (Flat.cur (Flat.run (Flat.initial Flat.ModeAI) forkGame))
     = Some X
  /\ Flat.timers (Flat.run (Flat.initial Flat.ModeAI) forkGame) = [].
Proof.
  split; [right; vm_compute; lia|]. vm_compute. repeat split; reflexivity.
Qed.

(** What the status line of App.js can come to show: in [overturnedGame]
    the human has won on the bottom row, and the answer that was armed
    before the status was recomputed completes the middle row, which
    [calculateWinner] meets first. *)
Lemma late_answer_overturns_the_win :
  Flat.winner (Flat.cur (Flat.run (Flat.initial Flat.ModeAI) overturnedGame))
  = Some X
  /\ Flat.timers (Flat.run (Flat.initial Flat.ModeAI) overturnedGame)
     = [ [Some X; None; Some O; Some O; Some O; Some O; Some X; Some X; Some X] ]
  /\ Flat.winner (Flat.cur (Flat.run (Flat.initial Flat.ModeAI)
                              (overturnedGame ++ [(Flat.TimerFires, 0)])))
     = Some O.
Proof. vm_compute. repeat split; reflexivity. Qed.

(** C8 (amended).  Against the opponent of App.js playing second: for
    every sequence of human moves there is a resolution of the random
    fallback with which no move of the human completes a line and the
    game ends without a win of the human.  (With other resolutions the
    human can win.) *)
Theorem opponent_can_hold : Flat.Holds (Flat.initial Flat.ModeAI).
Proof. apply (holdsb_sound 6). vm_cast_no_check (eq_refl true). Qed.

(** * Further properties of the components *)

(** ** App.js: status, clicks and timers *)

(** X1.  In every session App.js reaches from a new game, whatever the
    events and the random draws, [status] and [winner] hold the
    evaluation of the board then shown: the effect on [[board]] has
    run after every change of the board. *)
Theorem flat_always_settled (m : Flat.Mode) (es : list (Flat.event * nat)) :
  flatSettled (Flat.cur (Flat.run (Flat.initial m) es)).
Proof.
  apply (flat_run_invariant (fun w => flatSettled (Flat.cur w))).
  - intros rnd w e. apply flat_settled_step.
  - reflexivity.
Qed.

(** X2.  What [getStatusText] shows is true of the board shown: it
    announces a winner only when that mark holds the first full line of
    the board, a draw only when the board is full and has no full line,
    and otherwise, on a board with an empty square and no full line, it
    names the player to move. *)
Theorem flat_status_line_true (m : Flat.Mode) (es : list (Flat.event * nat)) :
  let s := Flat.cur (Flat.run (Flat.initial m) es) in
  match FlatView.getStatusText s with
  | FlatView.WinsText who =>
      exists mk, who = Some mk /\ firstFull (Flat.board s) mk
  | FlatView.DrawText =>
      ~ hasEmpty (Flat.board s) /\ noFullLine (Flat.board s)
  | FlatView.TurnText mk =>
      hasEmpty (Flat.board s) /\ noFullLine (Flat.board s)
      /\ mk = (if Flat.isXNext s then X else O)
  end.
Proof.
  cbn zeta. apply flat_status_text.
  apply (flat_run_invariant (fun w => flatSettled (Flat.cur w))).
  - intros rnd w e. apply flat_settled_step.
  - reflexivity.
Qed.

(** X3.  An accepted click on a square of the board fills that square,
    which was empty, with the mark of the player to move; the board
    keeps its length and every other square its content. *)
Theorem flat_click_fills_one_square (rnd : nat) (w : Flat.world) (idx : nat) :
  Flat.accepted (Flat.cur w) idx = true ->
  idx < length (Flat.board (Flat.cur w)) ->
  let b := Flat.board (Flat.cur w) in
  let b' := Flat.board (Flat.cur (Flat.step rnd w (Flat.Click idx))) in
  b !! idx = Some None
  /\ b' !! idx = Some (Some (if Flat.isXNext (Flat.cur w) then X else O))
  /\ length b' = length b
  /\ (forall k, k <> idx -> b' !! k = b !! k).
Proof.
  intros Hacc Hidx b b'.
  destruct (flat_click_inside rnd w idx Hacc Hidx) as [Hempty Hb].
  unfold b'. rewrite Hb. fold b.
  split; [done|]. split; [by apply list_lookup_insert_eq|].
  split; [apply length_insert|].
  intros k Hk. by apply list_lookup_insert_ne.
Qed.

Lemma flat_click_fills_one_square_witness :
  let w := Flat.initial Flat.ModeTwo in
  let b' := Flat.board (Flat.cur (Flat.step 0 w (Flat.Click 4))) in
  Flat.accepted (Flat.cur w) 4 = true
  /\ b' !! 4 = Some (Some X)
  /\ forall k, k <> 4 -> b' !! k = Flat.board (Flat.cur w) !! k.
Proof.
  assert (Hacc : Flat.accepted (Flat.cur (Flat.initial Flat.ModeTwo)) 4 = true)
    by reflexivity.
  assert (Hidx : 4 < length (Flat.board (Flat.cur (Flat.initial Flat.ModeTwo))))
    by (cbn; lia).
  pose proof (flat_click_fills_one_square 0 (Flat.initial Flat.ModeTwo) 4
                Hacc Hidx) as H.
  cbn zeta in H. destruct H as (_ & Hnew & _ & Hold).
  split; [exact Hacc|]. split; [exact Hnew|exact Hold].
Defined.

(** X4.  Every accepted click uses up one empty square: after a run of
    accepted clicks on squares of the board, the number of clicks and
    the number of squares still empty add up to the number of squares
    that were empty before, and the board has kept its length.  So a
    board of nine squares accepts no more than nine clicks in a row. *)
Theorem flat_clicks_use_squares (es : list (Flat.event * nat))
    (w w' : Flat.world) :
  Flat.placements w es = Some w' ->
  clicksBelow (length (Flat.board (Flat.cur w))) es ->
  length es + length (Flat.emptyIndices (Flat.board (Flat.cur w')))
  = length (Flat.emptyIndices (Flat.board (Flat.cur w)))
  /\ length (Flat.board (Flat.cur w')) = length (Flat.board (Flat.cur w)).
Proof.
  revert w. induction es as [|[e rnd] es IH]; intros w;
    cbn [Flat.placements length].
  - by intros [= ->] _.
  - destruct (Flat.legalPlacement w e) eqn:Hlegal; [|discriminate].
    intros Hrun Hclicks. apply Forall_cons in Hclicks as [He Hclicks].
    cbn in He. destruct e as [idx| | |]; try done.
    cbn [Flat.legalPlacement] in Hlegal.
    destruct (flat_click_inside rnd w idx Hlegal He) as [Hempty Hb].
    assert (Hlen : length (Flat.board (Flat.cur (Flat.step rnd w (Flat.Click idx))))
                   = length (Flat.board (Flat.cur w))).
    { rewrite Hb. apply length_insert. }
    assert (Hcount : S (length (Flat.emptyIndices
                         (Flat.board (Flat.cur (Flat.step rnd w (Flat.Click idx))))))
                     = length (Flat.emptyIndices (Flat.board (Flat.cur w)))).
    { rewrite Hb, !emptyIndices_from. by apply emptyFrom_fill. }
    destruct (IH _ Hrun) as [IH1 IH2]; [by rewrite Hlen|].
    split; [lia|congruence].
Qed.

Lemma flat_clicks_use_squares_witness :
  Flat.placements (Flat.initial Flat.ModeTwo) beforeTheWin
  = Some (Flat.run (Flat.initial Flat.ModeTwo) beforeTheWin)
  /\ 4 + length (Flat.emptyIndices (Flat.board (Flat.cur
           (Flat.run (Flat.initial Flat.ModeTwo) beforeTheWin)))) = 9.
Proof.
  assert (Hrun : Flat.placements (Flat.initial Flat.ModeTwo) beforeTheWin
                 = Some (Flat.run (Flat.initial Flat.ModeTwo) beforeTheWin))
    by reflexivity.
  split; [exact Hrun|].
  refine (proj1 (flat_clicks_use_squares beforeTheWin
                   (Flat.initial Flat.ModeTwo) _ Hrun _)).
  repeat (constructor; [cbn; lia|]). constructor.
Defined.

(** X5.  The board keeps its nine squares, and so does every board a
    timer holds, under every event the view can deliver: a click on one
    of the buttons [Board] renders that [Square] has not disabled, "New
    Game", a choice of mode, the expiry of a timer. *)
Theorem flat_board_keeps_nine (rnd : nat) (w : Flat.world) (e : Flat.event) :
  flatShaped w ->
  (forall idx, e = Flat.Click idx -> FlatView.canClick (Flat.cur w) idx = true) ->
  flatShaped (Flat.step rnd w e).
Proof.
  intros [Hb Ht] Hview.
  destruct (flat_dispatch_cases w e) as [Hnil|Href].
  { by rewrite flat_step_idle. }
  rewrite flat_step_exact by done.
  pose proof (flat_pass_board_changed rnd _ _ Href) as Hpass.
  pose proof (flat_pass_timers rnd _ _ Href) as Htimers.
  cbn zeta in Hpass. destruct Hpass as (_ & _ & Hboard & _).
  set (w0 := snd (Flat.dispatch w e)) in *.
  set (w1 := Flat.performAll w0 (fst (Flat.dispatch w e))) in *.
  assert (H1 : length (Flat.board (Flat.cur w1)) = 9
               /\ Forall (fun nb => length nb = 9) (Flat.timers w1)).
  { unfold w1, w0. destruct e as [idx| |m|]; cbn [Flat.dispatch fst snd].
    - destruct (decide (Flat.handleSquareClick (Flat.cur w) idx = [])) as [H|H].
      + rewrite H. done.
      + rewrite (flat_click_accepted _ _ H). cbn. split; [|done].
        rewrite jsSet_length; [done|].
        specialize (Hview idx eq_refl). unfold FlatView.canClick in Hview.
        apply andb_true_iff in Hview as [Hview _].
        by apply bool_decide_eq_true in Hview.
    - cbn. done.
    - cbn. done.
    - destruct (Flat.timers w) as [|nb rest] eqn:Htw;
        [cbn; by rewrite Htw|].
      apply Forall_cons in Ht as [Hnb Hrest]. cbn. done. }
  destruct H1 as [Hb1 Ht1]. split; [by rewrite Hboard|].
  rewrite Htimers. apply Forall_app. split; [done|].
  destruct (Flat.aiMoveEffect (Flat.cur w1) rnd) as [|[nb| | | | | |nb] [|? ?]]
    eqn:Heff; try done.
  apply Forall_singleton. rewrite (aiMoveEffect_armed _ _ _ Heff). done.
Qed.

Lemma flat_board_keeps_nine_witness :
  flatShaped (Flat.initial Flat.ModeAI)
  /\ flatShaped (Flat.step 0 (Flat.initial Flat.ModeAI) (Flat.Click 0)).
Proof.
  assert (H0 : flatShaped (Flat.initial Flat.ModeAI)).
  { split; [reflexivity|constructor]. }
  split; [exact H0|].
  apply (flat_board_keeps_nine 0 (Flat.initial Flat.ModeAI) (Flat.Click 0) H0).
  intros idx Hidx. injection Hidx as <-. reflexivity.
Defined.

(** X6.  Against the opponent, an accepted click arms exactly one
    timer whenever the board it leaves has an empty square, and the
    timer holds that board with the opponent's answer on it.  The
    outcome of the click is not looked at: the effect runs in the
    commit of the click, where [status] still is "ongoing". *)
Theorem flat_click_arms (rnd : nat) (w : Flat.world) (idx mv : nat) :
  Flat.mode (Flat.cur w) = Flat.ModeAI ->
  Flat.accepted (Flat.cur w) idx = true ->
  Flat.getAIMove (jsSet (Flat.board (Flat.cur w)) idx (Some X)) rnd = Some mv ->
  Flat.timers (Flat.step rnd w (Flat.Click idx))
  = Flat.timers w
    ++ [jsSet (jsSet (Flat.board (Flat.cur w)) idx (Some X)) mv (Some O)].
Proof.
  intros Hmode Hacc Hmove. apply flat_accepted_iff in Hacc.
  assert (Hguards : Flat.status (Flat.cur w) = Flat.StOngoing
                    /\ Flat.isXNext (Flat.cur w) = true).
  { split.
    - apply dec_stable. intros Hn. apply Hacc, flat_click_rejected. by left.
    - apply not_false_iff_true. intros Hn. apply Hacc, flat_click_rejected.
      right; right. done. }
  destruct Hguards as [Hst Hx].
  rewrite flat_step_exact;
    cbn [Flat.dispatch fst snd]; rewrite (flat_click_accepted _ _ Hacc);
    [|cbn; lia].
  rewrite flat_pass_timers by (cbn; lia).
  destruct w as [[md b x st wn] ref ts]. cbn in *. subst.
  unfold Flat.aiMoveEffect. cbn. by rewrite Hmove.
Qed.

Lemma flat_click_arms_witness :
  Flat.getAIMove
    (jsSet (Flat.board (Flat.cur (Flat.initial Flat.ModeAI))) 0 (Some X)) 0
  = Some 4
  /\ Flat.timers (Flat.step 0 (Flat.initial Flat.ModeAI) (Flat.Click 0))
     = [afterCentre].
Proof.
  split; [reflexivity|].
  exact (flat_click_arms 0 (Flat.initial Flat.ModeAI) 0 4
           eq_refl eq_refl eq_refl).
Defined.

(** X7.  With two players on one screen no timer is ever armed: as long
    as the mode against the opponent is not selected, the session stays
    in the mode of two players and the list of timers stays empty. *)
Theorem flat_two_players_never_arm (es : list (Flat.event * nat)) :
  Forall (fun er => fst er <> Flat.SelectMode Flat.ModeAI) es ->
  Flat.mode (Flat.cur (Flat.run (Flat.initial Flat.ModeTwo) es)) = Flat.ModeTwo
  /\ Flat.timers (Flat.run (Flat.initial Flat.ModeTwo) es) = [].
Proof.
  assert (Hgen : forall w,
    Forall (fun er => fst er <> Flat.SelectMode Flat.ModeAI) es ->
    Flat.mode (Flat.cur w) = Flat.ModeTwo /\ Flat.timers w = [] ->
    Flat.mode (Flat.cur (Flat.run w es)) = Flat.ModeTwo
    /\ Flat.timers (Flat.run w es) = []).
  { unfold Flat.run. induction es as [|[e rnd] es IH]; intros w Hes Hw; [done|].
    apply Forall_cons in Hes as [He Hes]. cbn [foldl fst snd].
    apply IH; [done|]. by apply flat_two_players_step. }
  intros Hes. by apply Hgen.
Qed.

Lemma flat_two_players_never_arm_witness :
  Flat.timers (Flat.run (Flat.initial Flat.ModeTwo) beforeTheWin) = [].
Proof.
  refine (proj2 (flat_two_players_never_arm beforeTheWin _)).
  repeat (constructor; [discriminate|]). constructor.
Defined.

(** X8.  Against the opponent the human cannot move twice in a row:
    after an accepted click every further click, on whatever square,
    leaves the component as it is. *)
Theorem flat_no_second_click (rnd rnd' : nat) (w : Flat.world)
    (idx idx' : nat) :
  Flat.mode (Flat.cur w) = Flat.ModeAI ->
  Flat.accepted (Flat.cur w) idx = true ->
  Flat.step rnd' (Flat.step rnd w (Flat.Click idx)) (Flat.Click idx')
  = Flat.step rnd w (Flat.Click idx).
Proof.
  intros Hmode Hacc. apply flat_accepted_iff in Hacc.
  assert (Hx : Flat.isXNext (Flat.cur w) = true).
  { apply not_false_iff_true. intros Hn. apply Hacc, flat_click_rejected.
    right; right. done. }
  destruct (flat_step_click rnd w idx Hacc) as (Hm & _ & Hx' & _).
  apply flat_step_idle. cbn [Flat.dispatch fst].
  apply flat_click_rejected. right; right. split; [congruence|].
  by rewrite Hx', Hx.
Qed.

Lemma flat_no_second_click_witness :
  Flat.step 0 (Flat.step 0 flatSecondTurn (Flat.Click 8)) (Flat.Click 1)
  = Flat.step 0 flatSecondTurn (Flat.Click 8).
Proof.
  exact (flat_no_second_click 0 0 flatSecondTurn 8 1 eq_refl eq_refl).
Defined.

(** X9.  The buttons [Square] disables are those the first guard of
    [handleSquareClick] rejects: an accepted click comes from an
    enabled button, and a click on an enabled button is ignored exactly
    when it is the opponent's turn in the mode against it. *)
Theorem flat_view_and_handler (s : Flat.session) (idx : nat) :
  (Flat.accepted s idx = true -> FlatView.squareDisabled s idx = false)
  /\ (FlatView.squareDisabled s idx = false ->
      (Flat.accepted s idx = false <->
       Flat.mode s = Flat.ModeAI /\ Flat.isXNext s = false)).
Proof.
  unfold FlatView.squareDisabled. split.
  - intros H. apply flat_accepted_iff in H.
    apply not_true_iff_false. intros Hd. apply H, flat_click_rejected.
    apply orb_true_iff in Hd as [Hd|Hd].
    + left. apply negb_true_iff, bool_decide_eq_false in Hd. done.
    + right; left. by destruct (jsGet _ _).
  - intros Hd. apply orb_false_iff in Hd as [Hst Hcell].
    apply negb_false_iff, bool_decide_eq_true in Hst.
    rewrite <- not_true_iff_false, flat_accepted_iff.
    split.
    + intros H. apply dec_stable in H.
      apply flat_click_rejected in H as [H|[H|H]]; [done| |done].
      by destruct (jsGet _ _).
    + intros H Hacc. apply Hacc, flat_click_rejected. by right; right.
Qed.

(** X10.  [calculateWinner] of App.js and the classification built on
    it know no favourite: on the board with the marks exchanged they
    return the outcome with the marks exchanged. *)
Theorem flat_evaluate_swap (sq : list cell) :
  Flat.calculateWinner (swapMarks sq) = option_map other (Flat.calculateWinner sq)
  /\ Flat.evaluate (swapMarks sq) = swapOutcome (Flat.evaluate sq).
Proof.
  split; [apply scanLines_swap|].
  unfold Flat.evaluate, Flat.calculateWinner. rewrite scanLines_swap.
  assert (Hfull : forallb truthy (swapMarks sq) = forallb truthy sq).
  { induction sq as [|[m|] sq IH]; cbn; [done|exact IH|done]. }
  rewrite Hfull.
  destruct (Flat.scanLines sq Flat.lines); cbn; [done|].
  by destruct (forallb truthy sq).
Qed.

(** ** The grid variants: winner, timer and buttons *)

(** X11.  In every session the grid variants reach from a new game,
    [winner] is what [calculateWinner] returns on the board then
    shown. *)
Theorem grid_always_settled (m : Grid.Mode) (es : list (Grid.event * nat)) :
  gridSettled (Grid.cur (Grid.run (Grid.initial m) es)).
Proof.
  apply (grid_run_invariant (fun w => gridSettled (Grid.cur w))).
  - intros rnd w e. apply grid_settled_step.
  - reflexivity.
Qed.

(** X12.  A pending timer of the grid variants is never stale: in every
    session reached from a new game, the timer that is pending was
    armed for the board now shown, in the mode against the opponent,
    on the opponent's turn, in a game without a result.  The cleanup of
    the effect has cancelled every other one. *)
Theorem grid_timer_never_stale (m : Grid.Mode) (es : list (Grid.event * nat)) :
  gridTimed (Grid.run (Grid.initial m) es).
Proof.
  apply (grid_run_invariant gridTimed).
  - intros rnd w e. apply grid_timed_step.
  - exact I.
Qed.

(** X13.  While the opponent's timer is pending no click gets through,
    and when it fires the opponent takes a square that is empty on the
    board shown, hands the turn to "X" and stops thinking; [winner] is
    recomputed for the new board. *)
Theorem grid_timer_lands (rnd : nat) (w : Grid.world) (b : list (list cell))
    (wn : Grid.winnerVal) (i j : nat) :
  gridTimed w -> Grid.pending w = Some (b, wn) ->
  Grid.aiMove b rnd = Some (i, j) ->
  (forall rnd' i' j', Grid.step rnd' w (Grid.CellClick i' j') = w)
  /\ Grid.rawAt (Grid.board (Grid.cur w)) i j = Some None
  /\ Grid.step rnd w Grid.TimerFires
     = Grid.mkWorld
         (Grid.mkSession Grid.MODE_AI
            (Grid.gridSet (Grid.board (Grid.cur w)) i j (Some O)) true
            (Grid.calculateWinner
               (Grid.gridSet (Grid.board (Grid.cur w)) i j (Some O)))
            false)
         (S (Grid.boardRef w)) None.
Proof.
  intros Hw Hp Hmove. unfold gridTimed in Hw. rewrite Hp in Hw.
  destruct Hw as (-> & -> & Hwn & Hx & Hmode).
  split; [|split].
  - intros rnd' i' j'. cbn [Grid.step].
    rewrite grid_click_rejected; [apply grid_deliver_nil|]. right; right. done.
  - by apply (aiMove_empty _ rnd).
  - rewrite (grid_step_timer_exact rnd w _ _ Hp), Hmove. cbn.
    by rewrite Hmode.
Qed.

Lemma grid_timer_lands_witness :
  Grid.pending gridAnswerDue
  = Some (Grid.board (Grid.cur gridAnswerDue), Grid.WNull)
  /\ Grid.aiMove (Grid.board (Grid.cur gridAnswerDue)) 0 = Some (0, 1)
  /\ Grid.rawAt (Grid.board (Grid.cur gridAnswerDue)) 0 1 = Some None.
Proof.
  assert (Ht : gridTimed gridAnswerDue).
  { unfold gridTimed. cbn. repeat split. }
  split; [reflexivity|]. split; [reflexivity|].
  exact (proj1 (proj2 (grid_timer_lands 0 gridAnswerDue
                         (Grid.board (Grid.cur gridAnswerDue)) Grid.WNull 0 1
                         Ht eq_refl eq_refl))).
Defined.

(** X14.  Against the opponent of the grid variants, a click of the
    human that ends the game, by a win or by filling the board, leaves
    [aiThinking] set with no timer pending that would clear it: the
    effect on the winner and the opponent effect run in the same
    commit, the second still sees no winner and sets the flag last, and
    its timer is cancelled in the next commit.  From then on every
    square, both mode buttons and "New Game" are disabled, so no press
    changes anything. *)
Theorem grid_dead_end (rnd : nat) (w : Grid.world) (i j : nat) :
  Grid.mode (Grid.cur w) = Grid.MODE_AI ->
  Grid.accepted (Grid.cur w) i j = true ->
  Grid.calculateWinner (Grid.gridSet (Grid.board (Grid.cur w)) i j (Some X))
  <> Grid.WNull ->
  let w' := Grid.step rnd w (Grid.CellClick i j) in
  Grid.aiThinking (Grid.cur w') = true
  /\ Grid.pending w' = None
  /\ (forall rnd' p, GridView.onPress rnd' w' p = w')
  /\ (forall rnd', Grid.step rnd' w' Grid.TimerFires = w').
Proof.
  intros Hmode Hacc Hres w'. apply grid_accepted_iff in Hacc.
  destruct (grid_click_accepted _ _ _ Hacc) as (_ & _ & _ & _ & Hx).
  specialize (Hx Hmode).
  assert (Hw' : w' = Grid.mkWorld
    (Grid.mkSession Grid.MODE_AI
       (Grid.gridSet (Grid.board (Grid.cur w)) i j (Some X)) false
       (Grid.calculateWinner
          (Grid.gridSet (Grid.board (Grid.cur w)) i j (Some X))) true)
    (S (Grid.boardRef w)) None).
  { unfold w'. rewrite grid_step_click_exact by done.
    rewrite Hmode, Hx. cbn.
    destruct (Grid.calculateWinner _); done. }
  rewrite Hw'. cbn. split; [done|]. split; [done|]. split; [|done].
  intros rnd' p.
  destruct p as [i' j'| |m]; cbn; [|done|done].
  unfold GridView.buttonDisabled, Grid.disabled. cbn.
  destruct (Grid.calculateWinner _); done.
Qed.

Lemma grid_dead_end_witness :
  let w' := Grid.step 0 gridMatchPoint (Grid.CellClick 0 2) in
  Grid.winner (Grid.cur w') = Grid.WMark X
  /\ GridView.controlsDisabled (Grid.cur w') = true
  /\ forall rnd' p, GridView.onPress rnd' w' p = w'.
Proof.
  assert (Hmode : Grid.mode (Grid.cur gridMatchPoint) = Grid.MODE_AI)
    by (vm_compute; reflexivity).
  assert (Hacc : Grid.accepted (Grid.cur gridMatchPoint) 0 2 = true)
    by (vm_compute; reflexivity).
  assert (Hres : Grid.calculateWinner
                   (Grid.gridSet (Grid.board (Grid.cur gridMatchPoint)) 0 2 (Some X))
                 <> Grid.WNull) by (vm_compute; discriminate).
  pose proof (grid_dead_end 0 gridMatchPoint 0 2 Hmode Hacc Hres) as H.
  cbn zeta in H. destruct H as (Hth & _ & Hpress & _).
  split; [vm_compute; reflexivity|]. split; [exact Hth|exact Hpress].
Defined.

(** X15.  A press on a mode button of the grid variants does nothing
    while the opponent is thinking, and nothing when the mode is the
    one already chosen, the game in progress included; otherwise it
    leaves a new game in the mode chosen, with no timer pending. *)
Theorem grid_mode_button (rnd : nat) (w : Grid.world) (v : Grid.Mode) :
  GridView.onPress rnd w (GridView.PressMode v)
  = if Grid.aiThinking (Grid.cur w) || bool_decide (v = Grid.mode (Grid.cur w))
    then w
    else Grid.mkWorld (Grid.fresh v) (S (Grid.boardRef w)) None.
Proof.
  unfold GridView.onPress, GridView.controlsDisabled.
  destruct (Grid.aiThinking (Grid.cur w)); [done|]. cbn [orb].
  case_bool_decide as Hv.
  - subst v. apply grid_step_mode_same.
  - by apply grid_step_mode.
Qed.

(** X16.  The board of the grid variants keeps its three rows of three
    squares under every event, a click being one on a square of the
    board: the placements copy the rows and overwrite one square, and
    the opponent only names squares inside the board. *)
Theorem grid_board_keeps_shape (rnd : nat) (w : Grid.world) (e : Grid.event) :
  wellFormed (Grid.board (Grid.cur w)) ->
  (forall i j, e = Grid.CellClick i j -> i < 3 /\ j < 3) ->
  wellFormed (Grid.board (Grid.cur (Grid.step rnd w e))).
Proof.
  intros Hw Hclick. destruct e as [i j| |m|].
  - destruct (decide (Grid.squareOnClick (Grid.cur w) i j = [])) as [H|H].
    + cbn [Grid.step]. by rewrite H, grid_deliver_nil.
    + rewrite grid_step_click_exact by done. cbn.
      apply gridSet_wellFormed; [done|]. by destruct (Hclick i j eq_refl).
  - rewrite grid_step_reset. apply emptyBoard_wellFormed.
  - destruct (decide (m = Grid.mode (Grid.cur w))) as [->|Hne].
    + by rewrite grid_step_mode_same.
    + rewrite grid_step_mode by done. apply emptyBoard_wellFormed.
  - destruct (Grid.pending w) as [[b wn]|] eqn:Hp.
    + rewrite (grid_step_timer_exact rnd w b wn Hp).
      destruct (Grid.aiMove b rnd) as [[i j]|] eqn:Hmove; [|done].
      destruct (negb (Grid.truthyW wn)); [|done]. cbn.
      apply gridSet_wellFormed; [done|].
      by destruct (aiMove_empty _ _ _ _ Hmove) as (_ & ? & _).
    + cbn [Grid.step]. by rewrite Hp.
Qed.

Lemma grid_board_keeps_shape_witness :
  wellFormed (Grid.board (Grid.cur gridAnswerDue))
  /\ wellFormed (Grid.board (Grid.cur (Grid.step 0 gridAnswerDue Grid.TimerFires))).
Proof.
  assert (H0 : wellFormed (Grid.board (Grid.cur gridAnswerDue))).
  { split; [reflexivity|]. repeat constructor. }
  split; [exact H0|].
  apply (grid_board_keeps_shape 0 gridAnswerDue Grid.TimerFires H0).
  intros i j Hij. discriminate Hij.
Defined.

(** X17.  An accepted click on a square of the grid fills that square,
    which was empty, with the mark of the player to move, leaves every
    other square as it was and passes the turn. *)
Theorem grid_click_fills_one_square (rnd : nat) (w : Grid.world) (i j : nat) :
  wellFormed (Grid.board (Grid.cur w)) -> i < 3 -> j < 3 ->
  Grid.accepted (Grid.cur w) i j = true ->
  let b := Grid.board (Grid.cur w) in
  let w' := Grid.step rnd w (Grid.CellClick i j) in
  Grid.rawAt b i j = Some None
  /\ Grid.rawAt (Grid.board (Grid.cur w')) i j
     = Some (Some (if Grid.xIsNext (Grid.cur w) then X else O))
  /\ (forall i' j', (i', j') <> (i, j) ->
        Grid.rawAt (Grid.board (Grid.cur w')) i' j' = Grid.rawAt b i' j')
  /\ Grid.xIsNext (Grid.cur w') = negb (Grid.xIsNext (Grid.cur w)).
Proof.
  intros Hw Hi Hj Hacc b w'. apply grid_accepted_iff in Hacc.
  destruct (grid_click_accepted _ _ _ Hacc) as (_ & _ & Hcell & _).
  split.
  { unfold b. rewrite wellFormed_rawAt by done. by rewrite Hcell. }
  unfold w'. rewrite grid_step_click_exact by done. cbn.
  destruct (rawAt_gridSet (Grid.board (Grid.cur w)) i j
              (Some (if Grid.xIsNext (Grid.cur w) then X else O)) Hw Hi Hj)
    as [Hnew Hold].
  split; [exact Hnew|]. split; [exact Hold|done].
Qed.

Lemma grid_click_fills_one_square_witness :
  let w := Grid.initial Grid.MODE_LOCAL in
  let w' := Grid.step 0 w (Grid.CellClick 1 1) in
  Grid.accepted (Grid.cur w) 1 1 = true
  /\ Grid.rawAt (Grid.board (Grid.cur w')) 1 1 = Some (Some X)
  /\ Grid.xIsNext (Grid.cur w') = false.
Proof.
  assert (Hw : wellFormed (Grid.board (Grid.cur (Grid.initial Grid.MODE_LOCAL)))).
  { split; [reflexivity|]. repeat constructor. }
  assert (H1 : 1 < 3) by lia.
  pose proof (grid_click_fills_one_square 0 (Grid.initial Grid.MODE_LOCAL) 1 1
                Hw H1 H1 eq_refl) as H.
  cbn zeta in H. destruct H as (_ & Hnew & _ & Hturn).
  split; [reflexivity|]. split; [exact Hnew|exact Hturn].
Defined.

(** X18.  Whenever the status line of the grid variants reads
    "Thinking...", the opponent's timer is pending, armed for the board
    shown: the line is never shown by a session in which nothing is
    about to happen. *)
Theorem grid_thinking_has_timer (m : Grid.Mode) (es : list (Grid.event * nat)) :
  let w := Grid.run (Grid.initial m) es in
  GridView.status (Grid.cur w) = GridView.ThinkingLine ->
  Grid.pending w = Some (Grid.board (Grid.cur w), Grid.WNull)
  /\ Grid.mode (Grid.cur w) = Grid.MODE_AI
  /\ Grid.xIsNext (Grid.cur w) = false.
Proof.
  intros w Hline.
  assert (Hinv : gridThinking w).
  { apply (grid_run_invariant gridThinking).
    - intros rnd w0 e. apply grid_thinking_step.
    - intros Hth. discriminate Hth. }
  unfold GridView.status in Hline.
  destruct (Grid.winner (Grid.cur w)) eqn:Hwn; try discriminate.
  destruct (Grid.aiThinking (Grid.cur w)) eqn:Hth; [|discriminate].
  destruct (Hinv Hth) as (Hmode & Hx & Hp). by rewrite Hp.
Qed.

Lemma grid_thinking_has_timer_witness :
  GridView.status (Grid.cur gridAnswerDue) = GridView.ThinkingLine
  /\ Grid.pending gridAnswerDue
     = Some (Grid.board (Grid.cur gridAnswerDue), Grid.WNull).
Proof.
  split; [reflexivity|].
  exact (proj1 (grid_thinking_has_timer Grid.MODE_AI
                  [(Grid.CellClick 0 0, 0)] eq_refl)).
Defined.

(** X19.  Against the opponent of App.js, in a game played without
    "New Game" and without a change of mode, at most one timer is
    pending, and only on the opponent's turn; when it fires the board
    changes in exactly the way the opponent chose, "O" on a square that
    is empty on the board shown, after which it is the turn of "X" and
    no timer is pending. *)
Theorem flat_answer_lands (es : list (Flat.event * nat)) (rnd : nat) :
  Forall (fun er => plays (fst er)) es ->
  let w := Flat.run (Flat.initial Flat.ModeAI) es in
  flatTimed w
  /\ (Flat.timers w <> [] ->
      let w' := Flat.step rnd w Flat.TimerFires in
      exists mv, Flat.board (Flat.cur w) !! mv = Some None
        /\ Flat.board (Flat.cur w')
           = <[mv := Some O]> (Flat.board (Flat.cur w))
        /\ Flat.isXNext (Flat.cur w') = true
        /\ Flat.timers w' = []).
Proof.
  assert (Hgen : forall w,
    Forall (fun er => plays (fst er)) es ->
    flatTimed w -> flatTimed (Flat.run w es)).
  { unfold Flat.run. induction es as [|[e r] es IH]; intros w Hes Hw; [done|].
    apply Forall_cons in Hes as [He Hes]. cbn [foldl fst snd].
    apply IH; [done|]. by apply flat_timed_step. }
  intros Hes w.
  assert (Hinv : flatTimed w) by (by apply Hgen).
  split; [exact Hinv|]. intros Hne w'.
  pose proof (flat_timed_step rnd w Flat.TimerFires I Hinv) as Hstep.
  fold w' in Hstep. destruct Hinv as [Hmode Ht].
  destruct (Flat.timers w) as [|nb [|nb' rest]] eqn:Htw; [done| |done].
  destruct Ht as (Hx & mv & Hempty & Hnb).
  destruct (flat_step_timer rnd w _ _ Htw) as [Hb' Hx']. fold w' in Hb', Hx'.
  exists mv. split; [exact Hempty|]. split; [by rewrite Hb'|].
  split; [exact Hx'|]. destruct Hstep as [_ Hts].
  destruct (Flat.timers w') as [|nb1 [|nb2 rest1]]; [done| |done].
  destruct Hts as [Hf _]. congruence.
Qed.

Lemma flat_answer_lands_witness :
  let w := Flat.run (Flat.initial Flat.ModeAI) [(Flat.Click 0, 0)] in
  Flat.timers w <> [] /\ Flat.timers (Flat.step 0 w Flat.TimerFires) = [].
Proof.
  assert (Hes : Forall (fun er => plays (fst er)) [(Flat.Click 0, 0)])
    by (repeat constructor).
  assert (Hne : Flat.timers (Flat.run (Flat.initial Flat.ModeAI)
                               [(Flat.Click 0, 0)]) <> [])
    by (vm_compute; discriminate).
  destruct (proj2 (flat_answer_lands [(Flat.Click 0, 0)] 0 Hes) Hne)
    as (mv & _ & _ & _ & Ht).
  split; [exact Hne|exact Ht].
Defined.

(** X20.  With two players the grid variants never think: in every
    session reached from a new game that is in the mode of two players,
    [aiThinking] is unset and no timer is pending, so "New Game" and
    both mode buttons are enabled. *)
Theorem grid_local_never_thinks (m : Grid.Mode) (es : list (Grid.event * nat)) :
  let w := Grid.run (Grid.initial m) es in
  Grid.mode (Grid.cur w) = Grid.MODE_LOCAL ->
  Grid.aiThinking (Grid.cur w) = false
  /\ Grid.pending w = None
  /\ GridView.controlsDisabled (Grid.cur w) = false.
Proof.
  intros w Hmode.
  assert (Hthink : gridThinking w).
  { apply (grid_run_invariant gridThinking).
    - intros rnd w0 e. apply grid_thinking_step.
    - intros Hth. discriminate Hth. }
  assert (Htimed : gridTimed w).
  { apply (grid_run_invariant gridTimed).
    - intros rnd w0 e. apply grid_timed_step.
    - exact I. }
  assert (Hth : Grid.aiThinking (Grid.cur w) = false).
  { destruct (Grid.aiThinking (Grid.cur w)) eqn:Hth; [|done].
    destruct (Hthink Hth) as [Hai _]. congruence. }
  split; [exact Hth|]. split; [|exact Hth].
  unfold gridTimed in Htimed.
  destruct (Grid.pending w) as [[b wn]|]; [|done].
  destruct Htimed as (_ & _ & _ & _ & Hai). congruence.
Qed.

Lemma grid_local_never_thinks_witness :
  Grid.pending (Grid.run (Grid.initial Grid.MODE_LOCAL)
                  [(Grid.CellClick 0 0, 0); (Grid.CellClick 1 1, 0)]) = None.
Proof.
  exact (proj1 (proj2 (grid_local_never_thinks Grid.MODE_LOCAL
                         [(Grid.CellClick 0 0, 0); (Grid.CellClick 1 1, 0)]
                         eq_refl))).
Defined.
